(** * onedriver: the cached drive-item tree and its FUSE adapter

    A shallow embedding of the [DriveItem] type of package [graph] with its
    methods, and of the path operations of [FuseFs] ([graph/fusefs.go]),
    together with the properties of the cached tree that the design
    document states.

    Conventions of the embedding.
    - Go's [int] and [int64] are 64-bit two's complement, [uint64] and
      [uint32] are unsigned; every arithmetic operation of the source is
      followed by the wrap-around of its type.
    - A run-time panic (nil dereference, slice bounds out of range, index
      of a nil slice, write to a nil map) is the result [None] of the
      partial computation.
    - Pointers to [DriveItem] are locations of an explicit heap; a method
      with a pointer receiver reads and writes the heap, a method with a
      value receiver works on the record it is given.  The structs behind
      the pointer fields [Parent], [ModifyTime] and [data] belong to one
      item each and are kept inside its record.
    - The HTTP helpers, the JSON codec, the URL builder and the path
      resolver are not part of the two files; they are parameters.  The
      service answers a request as a function of the requests sent so far.
    - Calls to [log] are omitted: they have no effect on the item tree.
      [Flush] is modelled up to the [go] statement: the upload it starts,
      on a copy of the item, is part of its result.  [String] is left out. *)

From Stdlib Require Import ZArith Lia List Ascii String.
From Stdlib.Strings Require Import Byte.
From stdpp Require Import base option list strings gmap fin_maps.

Local Open Scope Z_scope.

(* ===================================================================== *)
(** ** Machine integers *)
(* ===================================================================== *)

Module GoInt.

Definition two63 : Z := 2 ^ 63.
Definition two64 : Z := 2 ^ 64.
Definition two32 : Z := 2 ^ 32.

(** [int] and [int64]: signed, 64 bits. *)
Definition int (z : Z) : Z := (z + two63) mod two64 - two63.

(** [uint64] *)
Definition uint64 (z : Z) : Z := z mod two64.

(** [uint32] *)
Definition uint32 (z : Z) : Z := z mod two32.

Definition is_int (z : Z) : Prop := - two63 <= z < two63.
Definition is_uint64 (z : Z) : Prop := 0 <= z < two64.
Definition is_uint32 (z : Z) : Prop := 0 <= z < two32.

End GoInt.

(* ===================================================================== *)
(** ** Byte slices *)
(* ===================================================================== *)

(** A [[]byte] value is a window on a backing array.  [elems] are the
    bytes below the length, [spare] the bytes of the backing array between
    the length and the capacity.  The nil slice is [nil_slice]. *)
Record slice : Type := mkSlice {
  elems : list byte;
  spare : list byte
}.

Module Slice.

Definition nil_slice : slice := mkSlice [] [].

(** a slice that owns exactly its bytes, as returned by the HTTP helpers *)
Definition of_bytes (l : list byte) : slice := mkSlice l [].

Definition len (s : slice) : Z := Z.of_nat (length (elems s)).
Definition cap (s : slice) : Z :=
  Z.of_nat (length (elems s) + length (spare s))%nat.

Definition backing (s : slice) : list byte := elems s ++ spare s.

(** [s[lo:hi]]: panics unless [0 <= lo <= hi <= cap(s)]. *)
Definition range (s : slice) (lo hi : Z) : option slice :=
  if (0 <=? lo) && (lo <=? hi) && (hi <=? cap s) then
    let arr := drop (Z.to_nat lo) (backing s) in
    Some (mkSlice (take (Z.to_nat (hi - lo)) arr)
                  (drop (Z.to_nat (hi - lo)) arr))
  else None.

(** [s[:hi]] *)
Definition upto (s : slice) (hi : Z) : option slice := range s 0 hi.

(** [s[lo:]]: the upper bound defaults to [len(s)]. *)
Definition from (s : slice) (lo : Z) : option slice := range s lo (len s).

(** [append(s, data...)].  When the capacity suffices the backing array
    is written in place; otherwise a new array is allocated, whose
    capacity is chosen by the runtime ([growcap], at least the needed
    length) and whose tail is zeroed. *)
Definition append (growcap : Z -> Z -> Z) (s : slice) (data : list byte)
  : slice :=
  let n := (length (elems s) + length data)%nat in
  if (Z.of_nat n <=? cap s) then
    mkSlice (elems s ++ data) (drop (length data) (spare s))
  else
    let newcap := Z.max (Z.of_nat n) (growcap (cap s) (Z.of_nat n)) in
    mkSlice (elems s ++ data)
            (replicate (Z.to_nat newcap - n)%nat x00).

(** The effect of [copy(s[off:], src)] on [s]: the destination shares the
    backing array of [s], and [min(len(s)-off, len(src))] bytes are
    copied.  Panics when [s[off:]] does. *)
Definition copy_at (s : slice) (off : Z) (src : list byte)
  : option (slice * Z) :=
  match from s off with
  | None => None
  | Some dst =>
      let n := Nat.min (length (elems dst)) (length src) in
      let o := Z.to_nat off in
      Some (mkSlice (take o (elems s) ++ take n src
                       ++ drop (o + n)%nat (elems s))
                    (spare s),
            Z.of_nat n)
  end.

End Slice.

(* ===================================================================== *)
(** ** Strings *)
(* ===================================================================== *)

Module Strings.

Local Open Scope string_scope.

(** [strings.HasPrefix(s, prefix)] *)
Fixpoint HasPrefix (s prefix : string) {struct prefix} : bool :=
  match prefix, s with
  | EmptyString, _ => true
  | String _ _, EmptyString => false
  | String c p', String d s' =>
      if Ascii.eqb c d then HasPrefix s' p' else false
  end.

(** [s[n:]] for [n <= len(s)] *)
Fixpoint from (n : nat) (s : string) : string :=
  match n, s with
  | O, _ => s
  | S n', String _ s' => from n' s'
  | S _, EmptyString => EmptyString
  end.

(** [s[:n]] for [n <= len(s)] *)
Fixpoint upto (n : nat) (s : string) : string :=
  match n, s with
  | O, _ => EmptyString
  | S n', String c s' => String c (upto n' s')
  | S _, EmptyString => EmptyString
  end.

(** [strings.TrimPrefix(s, prefix)] *)
Definition TrimPrefix (s prefix : string) : string :=
  if HasPrefix s prefix then from (String.length prefix) s else s.

(** the last byte [s[len(s)-1]] of a string *)
Fixpoint last (s : string) : option ascii :=
  match s with
  | EmptyString => None
  | String c EmptyString => Some c
  | String _ s' => last s'
  end.

End Strings.

(* ===================================================================== *)
(** ** Regular expression [\w+$] *)
(* ===================================================================== *)

Module Regexp.

(** [\w]: an ASCII letter, digit or underscore *)
Definition is_word (c : ascii) : bool :=
  let n := nat_of_ascii c in
  ((48 <=? n) && (n <=? 57) || (65 <=? n) && (n <=? 90)
   || (97 <=? n) && (n <=? 122) || (n =? 95))%nat.

Fixpoint all_word (s : string) : bool :=
  match s with
  | EmptyString => true
  | String c s' => is_word c && all_word s'
  end.

(** [\w+$] matches at the start of [s] (and then up to its end, since
    [$] is the end of the text) when [s] is a non-empty run of word
    characters. *)
Definition match_here (s : string) : bool :=
  match s with
  | EmptyString => false
  | String _ _ => all_word s
  end.

(** The leftmost match of [\w+$] in the suffix [s] that starts at byte
    [i] of the text: [Some (start, end)], or [None] when there is none. *)
Fixpoint find_from (i : nat) (s : string) : option (nat * nat) :=
  if match_here s then Some (i, (i + String.length s)%nat)
  else match s with
       | EmptyString => None
       | String _ s' => find_from (S i) s'
       end.

(** [regexp.MustCompile(`\w+$`).FindStringIndex(s)]: a nil slice when
    there is no match. *)
Definition FindStringIndex (s : string) : option (nat * nat) :=
  find_from 0 s.

End Regexp.

(* ===================================================================== *)
(** ** Status codes of the FUSE library *)
(* ===================================================================== *)

Inductive Status : Type := OK | EPERM | ENOENT | EREMOTEIO.

(** the [errno] value of each status *)
Definition Status_code (s : Status) : Z :=
  match s with OK => 0 | EPERM => 1 | ENOENT => 2 | EREMOTEIO => 121 end.

Definition S_IFDIR : Z := 16384.  (* 0o040000 *)
Definition S_IFREG : Z := 32768.  (* 0o100000 *)

(* ===================================================================== *)
(** ** The data model *)
(* ===================================================================== *)

(** a pointer to a [DriveItem] *)
Abbreviation loc := positive (only parsing).

(** a Go [error] value, by its message *)
Abbreviation error := string (only parsing).

(** [DriveItemParent]; [ParentItem] is the unexported field [item]. *)
Record DriveItemParent : Type := mkParent {
  ParentID : string;
  ParentPath : string;
  ParentItem : option loc
}.

(** [DriveItem].  A nil pointer field is [None]; [File] tells whether the
    embedded [nodefs.File] is set; [ModifyTime] is in Unix seconds;
    [Folder] holds the child count and [FileAPI] the MIME type. *)
Record DriveItem {Auth : Type} : Type := mkItem {
  File : bool;
  auth : option Auth;
  data : option slice;
  hasChanges : bool;
  ID : string;
  Name : string;
  Size : Z;
  ModifyTime : option Z;
  mode : Z;
  Parent : option DriveItemParent;
  children : option (gmap string loc);
  Folder : option Z;
  FileAPI : option string
}.
Arguments DriveItem : clear implicits.
Arguments mkItem {Auth}.

(** the zero value [DriveItem{}] *)
Definition zero_item {Auth} : DriveItem Auth :=
  mkItem false None None false EmptyString EmptyString 0 None 0 None None
         None None.

Section Setters.
Context {Auth : Type}.
Implicit Type d : DriveItem Auth.

Definition set_File v d :=
  mkItem v (auth d) (data d) (hasChanges d) (ID d) (Name d) (Size d)
    (ModifyTime d) (mode d) (Parent d) (children d) (Folder d) (FileAPI d).
Definition set_data v d :=
  mkItem (File d) (auth d) v (hasChanges d) (ID d) (Name d) (Size d)
    (ModifyTime d) (mode d) (Parent d) (children d) (Folder d) (FileAPI d).
Definition set_hasChanges v d :=
  mkItem (File d) (auth d) (data d) v (ID d) (Name d) (Size d)
    (ModifyTime d) (mode d) (Parent d) (children d) (Folder d) (FileAPI d).
Definition set_ID v d :=
  mkItem (File d) (auth d) (data d) (hasChanges d) v (Name d) (Size d)
    (ModifyTime d) (mode d) (Parent d) (children d) (Folder d) (FileAPI d).
Definition set_Name v d :=
  mkItem (File d) (auth d) (data d) (hasChanges d) (ID d) v (Size d)
    (ModifyTime d) (mode d) (Parent d) (children d) (Folder d) (FileAPI d).
Definition set_Size v d :=
  mkItem (File d) (auth d) (data d) (hasChanges d) (ID d) (Name d) v
    (ModifyTime d) (mode d) (Parent d) (children d) (Folder d) (FileAPI d).
Definition set_ModifyTime v d :=
  mkItem (File d) (auth d) (data d) (hasChanges d) (ID d) (Name d) (Size d)
    v (mode d) (Parent d) (children d) (Folder d) (FileAPI d).
Definition set_mode v d :=
  mkItem (File d) (auth d) (data d) (hasChanges d) (ID d) (Name d) (Size d)
    (ModifyTime d) v (Parent d) (children d) (Folder d) (FileAPI d).
Definition set_Parent v d :=
  mkItem (File d) (auth d) (data d) (hasChanges d) (ID d) (Name d) (Size d)
    (ModifyTime d) (mode d) v (children d) (Folder d) (FileAPI d).
Definition set_children v d :=
  mkItem (File d) (auth d) (data d) (hasChanges d) (ID d) (Name d) (Size d)
    (ModifyTime d) (mode d) (Parent d) v (Folder d) (FileAPI d).
Definition set_Folder v d :=
  mkItem (File d) (auth d) (data d) (hasChanges d) (ID d) (Name d) (Size d)
    (ModifyTime d) (mode d) (Parent d) (children d) v (FileAPI d).
Definition set_FileAPI v d :=
  mkItem (File d) (auth d) (data d) (hasChanges d) (ID d) (Name d) (Size d)
    (ModifyTime d) (mode d) (Parent d) (children d) (Folder d) v.
End Setters.

(* ===================================================================== *)
(** ** Decoded JSON *)
(* ===================================================================== *)

(** A key of a JSON object as [encoding/json] sees it: missing, [null],
    or a value of the type of the field it is decoded into. *)
Inductive jfield (A : Type) : Type :=
| Absent
| Null
| Value (a : A).
Arguments Absent {A}.
Arguments Null {A}.
Arguments Value {A}.

Record ParentJSON : Type := mkParentJSON {
  j_parent_id : jfield string;
  j_parent_path : jfield string
}.

(** The keys of an item descriptor that [DriveItem] has tags for. *)
Record ItemJSON : Type := mkItemJSON {
  j_id : jfield string;
  j_name : jfield string;
  j_size : jfield Z;
  j_lastModifiedDatetime : jfield Z;
  j_parentReference : jfield ParentJSON;
  j_folder : jfield (jfield Z);
  j_file : jfield (jfield string)
}.

Module Json.

(** a field that is not a pointer: [null] and a missing key leave it *)
Definition plain {A} (j : jfield A) (old : A) : A :=
  match j with Value v => v | _ => old end.

(** a pointer to a scalar: [null] makes it nil *)
Definition pointer {A} (j : jfield A) (old : option A) : option A :=
  match j with Absent => old | Null => None | Value v => Some v end.

(** a pointer to a struct: the pointee is kept when there is one, a zero
    struct is allocated otherwise, and the keys present are decoded
    into it *)
Definition pointer_struct {A B} (zero : B) (dec : A -> B -> B)
    (j : jfield A) (old : option B) : option B :=
  match j with
  | Absent => old
  | Null => None
  | Value v => Some (dec v (default zero old))
  end.

Definition decode_parent (j : ParentJSON) (p : DriveItemParent)
  : DriveItemParent :=
  mkParent (plain (j_parent_id j) (ParentID p))
           (plain (j_parent_path j) (ParentPath p))
           (ParentItem p).

(** [json.Unmarshal] of a decoded object into an existing item: only the
    exported, tagged fields are written. *)
Definition unmarshal_into {Auth} (j : ItemJSON) (d : DriveItem Auth)
  : DriveItem Auth :=
  mkItem (File d) (auth d) (data d) (hasChanges d)
    (plain (j_id j) (ID d))
    (plain (j_name j) (Name d))
    (plain (j_size j) (Size d))
    (pointer (j_lastModifiedDatetime j) (ModifyTime d))
    (mode d)
    (pointer_struct (mkParent EmptyString EmptyString None) decode_parent
       (j_parentReference j) (Parent d))
    (children d)
    (pointer_struct 0 plain (j_folder j) (Folder d))
    (pointer_struct EmptyString plain (j_file j) (FileAPI d)).

(** an element of [[]*DriveItem]: a new item *)
Definition unmarshal_new {Auth} (j : ItemJSON) : DriveItem Auth :=
  unmarshal_into j zero_item.

End Json.

(* ===================================================================== *)
(** ** The world: the heap of items, the requests sent, the clock *)
(* ===================================================================== *)

(** a call of one of the HTTP helpers [Get], [Post], [Put], [Delete] *)
Inductive Request {Auth : Type} : Type :=
| ReqGet (resource : string) (a : Auth)
| ReqPost (resource : string) (a : Auth) (content : list byte)
| ReqPut (resource : string) (a : Auth) (content : list byte)
| ReqDelete (resource : string) (a : Auth).
Arguments Request : clear implicits.

Record State {Auth : Type} : Type := mkState {
  heap : gmap loc (DriveItem Auth);
  net : list (Request Auth);
  clock : Z
}.
Arguments State : clear implicits.
Arguments mkState {Auth}.

(** A computation on the world; [None] is a panic. *)
Definition M (Auth A : Type) : Type := State Auth -> option (A * State Auth).

#[global] Instance M_ret {Auth} : MRet (M Auth) :=
  fun A a st => Some (a, st).

#[global] Instance M_bind {Auth} : MBind (M Auth) :=
  fun A B k m st => match m st with
                    | None => None
                    | Some (a, st') => k a st'
                    end.

Definition panic {Auth A} : M Auth A := fun _ => None.

Section Heap.
Context {Auth : Type}.

(** [*p]: panics on a pointer that holds no item *)
Definition load (p : loc) : M Auth (DriveItem Auth) :=
  fun st => match heap st !! p with
            | None => None
            | Some d => Some (d, st)
            end.

(** [*p = d] *)
Definition store (p : loc) (d : DriveItem Auth) : M Auth unit :=
  fun st => match heap st !! p with
            | None => None
            | Some _ => Some (tt, mkState (<[p := d]> (heap st)) (net st)
                                          (clock st))
            end.

(** [&DriveItem{...}]: a new location *)
Definition alloc (d : DriveItem Auth) : M Auth loc :=
  fun st => let p := fresh (dom (heap st)) in
            Some (p, mkState (<[p := d]> (heap st)) (net st) (clock st)).

(** [time.Now()] *)
Definition time_Now : M Auth Z := fun st => Some (clock st, st).

End Heap.

(** a partial step that does not touch the world *)
Definition lift {Auth A} (o : option A) : M Auth A :=
  fun st => match o with None => None | Some a => Some (a, st) end.

(** A call of a method with a pointer receiver.  These are the only
    methods that can write a field of the item they are called on: the
    other methods ([Path], [Read], [Flush], [GetAttr], [IsDir], [MTime],
    [NLink], [FakeSize], [String]) have a value receiver and work on a
    copy of the struct. *)
Inductive Op {Auth : Type} : Type :=
| OpSetParent (newParent : loc)
| OpGetChildren (a : Auth)
| OpFetchContent (a : Auth)
| OpWrite (data_ : list byte) (off : Z)
| OpUpload (a : Auth)
| OpUtimens (atime mtime : option Z)
| OpTruncate (size : Z)
| OpMode
| OpNewChild (name : string) (mode_ : Z).
Arguments Op : clear implicits.

(** The result of a computation that contains a loop: the loop is run for
    a number of rounds, and may not have ended within them. *)
Inductive Run (A : Type) : Type :=
| Returns (a : A)
| Panics
| Spins.
Arguments Returns {A}.
Arguments Panics {A}.
Arguments Spins {A}.

(** [fuse.Owner] and [fuse.Attr] *)
Record Owner : Type := mkOwner { Uid : Z; Gid : Z }.

Record Attr : Type := mkAttr {
  attr_Ino : Z;
  attr_Size : Z;
  attr_Blocks : Z;
  attr_Atime : Z;
  attr_Mtime : Z;
  attr_Ctime : Z;
  attr_Atimensec : Z;
  attr_Mtimensec : Z;
  attr_Ctimensec : Z;
  attr_Mode : Z;
  attr_Nlink : Z;
  attr_Owner : Owner;
  attr_Rdev : Z;
  attr_Blksize : Z
}.

(** the zero value [fuse.Attr{}] *)
Definition zero_attr : Attr :=
  mkAttr 0 0 0 0 0 0 0 0 0 0 0 (mkOwner 0 0) 0 0.

(** [fuse.DirEntry], as [OpenDir] fills it *)
Record DirEntry : Type := mkDirEntry { entry_Name : string; entry_Mode : Z }.

(** [fuse.O_ANYWRITE]: [O_WRONLY | O_RDWR | O_APPEND | O_CREAT | O_TRUNC] *)
Definition O_ANYWRITE : Z := 1603.  (* 0x643 *)

(* ===================================================================== *)
(** ** [DriveItem] and its methods *)
(* ===================================================================== *)

Section DriveItemMethods.

Context {Auth : Type}.

(** The collaborators that live outside the two files. *)

(** the remote service: the answer (body, error) to a request, given the
    requests sent before it *)
Variable remote :
  list (Request Auth) -> Request Auth -> slice * option error.
(** the URL builder [ChildrenPath] *)
Variable ChildrenPath : string -> string.
(** [json.Unmarshal] into [driveChildren]: the elements of ["value"],
    a JSON [null] being a nil pointer *)
Variable decodeChildren : list byte -> list (option ItemJSON).
(** [json.Unmarshal] of one item descriptor: the keys decoded and the
    error returned *)
Variable decodeItem : list byte -> ItemJSON * option error.
(** the capacity the runtime picks when [append] reallocates *)
Variable growcap : Z -> Z -> Z.
(** [os.Getuid()] and [os.Getgid()] *)
Variable Getuid Getgid : Z.

Implicit Type d : DriveItem Auth.
Implicit Type p : loc.

Local Open Scope string_scope.

(** one call of an HTTP helper: the request is recorded and answered *)
Definition http (r : Request Auth) : M Auth (slice * option error) :=
  fun st => Some (remote (net st) r,
                  mkState (heap st) (net st ++ [r]) (clock st)).

Definition Get (resource : string) (a : Auth) := http (ReqGet resource a).
Definition Put (resource : string) (a : Auth) (content : list byte) :=
  http (ReqPut resource a content).

(** [func (d DriveItem) Path() string] *)
Definition Path d : option string :=
  par ← Parent d;
  if String.eqb (ParentPath par) "" && String.eqb (Name d) "root"
  then Some "/"
  else Some (Strings.TrimPrefix (ParentPath par +:+ "/" +:+ Name d)
                                "/drive/root:").

(** [func (d *DriveItem) Mode() uint32], on the item itself: the mode and
    the item with the mode initialised *)
Definition Mode_item d : Z * DriveItem Auth :=
  if Z.eqb (mode d) 0 then
    match FileAPI d with
    | None => let m := Z.lor S_IFDIR 493 (* 0755 *) in (m, set_mode m d)
    | Some _ => let m := Z.lor S_IFREG 420 (* 0644 *) in (m, set_mode m d)
    end
  else (mode d, d).

(** [Mode] through a pointer *)
Definition Mode p : M Auth Z :=
  d ← load p;
  let '(m, d') := Mode_item d in
  store p d';; mret m.

(** [func (d DriveItem) IsDir() bool]: [Mode] runs on the receiver's copy *)
Definition IsDir d : bool := Z.land (fst (Mode_item d)) S_IFDIR >? 0.

(** [func (d *DriveItem) setParent(newParent *DriveItem)] *)
Definition setParent p (newParent : loc) : M Auth unit :=
  n ← load newParent;
  path ← lift (Path n);
  d ← load p;
  store p (set_Parent (Some (mkParent (ID n) path (Some newParent))) d).

(** [func NewDriveItem(name string, mode uint32, parent *DriveItem)] *)
Definition NewDriveItem (name : string) (mode_ : Z) (parent : loc)
  : M Auth loc :=
  currentTime ← time_Now;
  par ← load parent;
  pp ← lift (Parent par);
  alloc (mkItem true None (Some Slice.nil_slice) false "" name 0
           (Some currentTime) mode_
           (Some (mkParent (ID par) (ParentPath pp +:+ "/" +:+ Name par)
                           (Some parent)))
           (Some ∅) None None).

(** the loop of [GetChildren] over the fetched items *)
Fixpoint fill_children p (fetched : list (option ItemJSON)) : M Auth unit :=
  match fetched with
  | [] => mret tt
  | child :: rest =>
      j ← lift child;
      let c : DriveItem Auth := Json.unmarshal_new j in
      cp ← lift (Parent c);
      q ← alloc (set_Parent
                   (Some (mkParent (ParentID cp) (ParentPath cp) (Some p)))
                   c);
      d ← load p;
      m ← lift (children d);
      store p (set_children (Some (<[Name c := q]> m)) d);;
      fill_children p rest
  end.

(** [func (d *DriveItem) GetChildren(auth Auth)] *)
Definition GetChildren p (a : Auth)
  : M Auth (option (gmap string loc) * option error) :=
  d ← load p;
  if negb (IsDir d) || bool_decide (children d ≠ None) then
    mret (children d, None)
  else
    path ← lift (Path d);
    '(body, err) ← Get (ChildrenPath path) a;
    match err with
    | Some e => mret (None, Some e)
    | None =>
        let fetched := decodeChildren (elems body) in
        store p (set_children (Some ∅) d);;
        fill_children p fetched;;
        d' ← load p;
        mret (children d', None)
    end.

(** [func (d *DriveItem) FetchContent(auth Auth) error] *)
Definition FetchContent p (a : Auth) : M Auth (option error) :=
  d ← load p;
  '(body, err) ← Get ("/me/drive/items/" +:+ ID d +:+ "/content") a;
  match err with
  | Some e => mret (Some e)
  | None => store p (set_File true (set_data (Some body) d));; mret None
  end.

(** [func (d DriveItem) Read(buf []byte, off int64)]: the bytes of the
    result and the status *)
Definition Read d (buf : list byte) (off : Z) : option (list byte * Status) :=
  s ← data d;
  let end_ := GoInt.int (GoInt.int off + Z.of_nat (length buf)) in
  let end_ := if end_ >? Slice.len s then Slice.len s else end_ in
  r ← Slice.range s off end_;
  Some (elems r, OK).

(** [Write] on the item itself *)
Definition Write_item d (data_ : list byte) (off : Z)
  : option (DriveItem Auth * (Z * Status)) :=
  let nWrite := Z.of_nat (length data_) in
  let offset := GoInt.int off in
  s ← data d;
  s' ← (if GoInt.int (offset + nWrite) >? GoInt.int (GoInt.int (Size d) - 1)
        then pre ← Slice.upto s offset;
             Some (Slice.append growcap pre data_)
        else fst <$> Slice.copy_at s offset data_);
  Some (set_hasChanges true
          (set_Size (GoInt.uint64 (Slice.len s')) (set_data (Some s') d)),
        (GoInt.uint32 nWrite, OK)).

(** [func (d *DriveItem) Write(data []byte, off int64)] *)
Definition Write p (data_ : list byte) (off : Z) : M Auth (Z * Status) :=
  d ← load p;
  '(d', r) ← lift (Write_item d data_ off);
  store p d';; mret r.

(** [Truncate] on the item itself *)
Definition Truncate_item d (size : Z) : option (DriveItem Auth * Status) :=
  s ← data d;
  s' ← Slice.upto s size;
  Some (set_hasChanges true (set_Size size (set_data (Some s') d)), OK).

(** [func (d *DriveItem) Truncate(size uint64)] *)
Definition Truncate p (size : Z) : M Auth Status :=
  d ← load p;
  '(d', r) ← lift (Truncate_item d size);
  store p d';; mret r.

(** [func (d *DriveItem) Utimens(atime, mtime *time.Time)] *)
Definition Utimens p (atime mtime : option Z) : M Auth Status :=
  d ← load p;
  store p (set_ModifyTime mtime d);; mret OK.

(** [func (d *DriveItem) Upload(auth Auth) error] *)
Definition Upload p (a : Auth) : M Auth (option error) :=
  d ← load p;
  uploadPath ← lift (if String.eqb (ID d) ""
                     then par ← Parent d;
                          Some ("/me/drive/items/" +:+ ParentID par +:+ ":/"
                                  +:+ Name d +:+ ":/content")
                     else Some ("/me/drive/items/" +:+ ID d +:+ "/content"));
  s ← lift (data d);
  '(resp, err) ← Put uploadPath a (elems s);
  match err with
  | Some e => mret (Some e)
  | None =>
      let '(j, jerr) := decodeItem (elems resp) in
      store p (Json.unmarshal_into j d);; mret jerr
  end.

(** [func (d DriveItem) MTime() uint64] *)
Definition MTime d : option Z := t ← ModifyTime d; Some (GoInt.uint64 t).

(** the loop of [NLink]: [v.IsDir()] dereferences each child *)
Fixpoint count_subdirs (h : gmap loc (DriveItem Auth)) (vs : list loc)
    (nSubdir : Z) : option Z :=
  match vs with
  | [] => Some nSubdir
  | v :: rest =>
      c ← h !! v;
      count_subdirs h rest
        (if IsDir c then GoInt.uint32 (nSubdir + 1) else nSubdir)
  end.

(** the values a [range] over the children map visits; none for a nil map *)
Definition range_children d : list loc :=
  match children d with
  | None => []
  | Some m => (map_to_list m).*2
  end.

(** [func (d DriveItem) NLink() uint32] *)
Definition NLink (h : gmap loc (DriveItem Auth)) d : option Z :=
  if IsDir d then
    nSubdir ← count_subdirs h (range_children d) 0;
    Some (GoInt.uint32 (2 + nSubdir))
  else Some 1.

(** [func (d DriveItem) FakeSize() uint64] *)
Definition FakeSize d : Z := if IsDir d then 4096 else Size d.

(** the call of [op] on the item at [p] *)
Definition exec (op : Op Auth) p : M Auth unit :=
  match op with
  | OpSetParent newParent => setParent p newParent
  | OpGetChildren a => GetChildren p a;; mret tt
  | OpFetchContent a => FetchContent p a;; mret tt
  | OpWrite data_ off => Write p data_ off;; mret tt
  | OpUpload a => Upload p a;; mret tt
  | OpUtimens atime mtime => Utimens p atime mtime;; mret tt
  | OpTruncate size => Truncate p size;; mret tt
  | OpMode => Mode p;; mret tt
  | OpNewChild name mode_ => NewDriveItem name mode_ p;; mret tt
  end.

(** a sequence of calls, each on its own receiver *)
Fixpoint run_calls (calls : list (Op Auth * loc)) : M Auth unit :=
  match calls with
  | [] => mret tt
  | (op, p) :: rest => exec op p;; run_calls rest
  end.

(** the loop of [getRoot], from the pointer [parent] on *)
Fixpoint getRoot_from (rounds : nat) (h : gmap loc (DriveItem Auth))
    (parent : option loc) : Run loc :=
  match rounds with
  | O => Spins
  | S rounds' =>
      match (q ← parent; d ← h !! q; par ← Parent d; Some (q, par)) with
      | None => Panics
      | Some (q, par) =>
          if String.eqb (ParentPath par) "" then Returns q
          else getRoot_from rounds' h (ParentItem par)
      end
  end.

(** [func (d DriveItem) getRoot() *DriveItem] *)
Definition getRoot (rounds : nat) (h : gmap loc (DriveItem Auth)) d
  : Run loc :=
  match Parent d with
  | None => Panics
  | Some par => getRoot_from rounds h (ParentItem par)
  end.

(** [func (d DriveItem) Flush() fuse.Status]: the status, and the upload
    that the [go] statement starts, on this copy of the item and with the
    credentials of the root *)
Definition Flush (rounds : nat) (h : gmap loc (DriveItem Auth)) d
  : Run (Status * option (DriveItem Auth * Auth)) :=
  if hasChanges d then
    match getRoot rounds h d with
    | Spins => Spins
    | Panics => Panics
    | Returns r =>
        match (root ← h !! r; auth root) with
        | None => Panics
        | Some a => Returns (OK, Some (d, a))
        end
    end
  else Returns (OK, None).

(** [func (d DriveItem) GetAttr(out *fuse.Attr) fuse.Status]: the
    attributes written through [out], and the status *)
Definition GetAttr (h : gmap loc (DriveItem Auth)) d (out : Attr)
  : option (Attr * Status) :=
  let size := FakeSize d in
  nlink ← NLink h d;
  atime ← MTime d;
  mtime ← MTime d;
  ctime ← MTime d;
  let mode_ := fst (Mode_item d) in
  Some (mkAttr (attr_Ino out) size (attr_Blocks out) atime mtime ctime
          (attr_Atimensec out) (attr_Mtimensec out) (attr_Ctimensec out)
          mode_ nlink
          (mkOwner (GoInt.uint32 Getuid) (GoInt.uint32 Getgid))
          (attr_Rdev out) (attr_Blksize out),
        OK).

End DriveItemMethods.

(* ===================================================================== *)
(** ** [FuseFs]: the path operations *)
(* ===================================================================== *)

(** [FuseFs]; the embedded [pathfs.FileSystem] has no state of its own. *)
Record FuseFs {Auth : Type} : Type := mkFuseFs { FsAuth : Auth }.
Arguments FuseFs : clear implicits.
Arguments mkFuseFs {Auth}.

Section FuseFsMethods.

Context {Auth : Type}.

Variable remote :
  list (Request Auth) -> Request Auth -> slice * option error.
Variable ChildrenPath : string -> string.
(** the resolver [GetItem(path, auth)]: an item pointer and an error *)
Variable GetItem : string -> Auth -> M Auth (option loc * option error).
(** [json.Marshal(newFolderPost{Name: child})] *)
Variable marshalNewFolder : string -> list byte.
(** the resolver [GetChildren(path, auth)]: a children map and an error *)
Variable GetChildrenOf :
  string -> Auth -> M Auth (option (gmap string loc) * option error).
(** [os.Getuid()] and [os.Getgid()] *)
Variable Getuid Getgid : Z.
(** the order in which a [range] statement visits the entries of a map;
    Go does not specify it *)
Variable range_order : gmap string loc -> list (string * loc).

Local Open Scope string_scope.

Definition Post (resource : string) (a : Auth) (content : list byte) :=
  http remote (ReqPost resource a content).
Definition Delete (resource : string) (a : Auth) : M Auth (option error) :=
  r ← http remote (ReqDelete resource a); mret (snd r).

(** the path as [Mkdir] parses it: the slash is put in front and one
    trailing slash is removed *)
Definition Mkdir_path (name : string) : string :=
  let name := "/" +:+ name in
  if bool_decide (Strings.last name = Some "/"%char)
  then Strings.upto (String.length name - 1) name
  else name.

(** [parent, child := name[:split], name[split:]] with
    [split := re.FindStringIndex(name)[0]]; indexing the nil result of a
    failed search panics *)
Definition Mkdir_split (name : string) : option (string * string) :=
  let name := Mkdir_path name in
  '(split, _) ← Regexp.FindStringIndex name;
  Some (Strings.upto split name, Strings.from split name).

(** [func (fs *FuseFs) Mkdir(name string, mode uint32, context)] *)
Definition Mkdir (fs : FuseFs Auth) (name : string) (mode_ : Z)
  : M Auth Status :=
  '(parent, child) ← lift (Mkdir_split name);
  let bytePayload := marshalNewFolder child in
  '(resp, err) ← Post (ChildrenPath parent) (FsAuth fs) bytePayload;
  match err with
  | Some _ => mret EREMOTEIO
  | None => mret OK
  end.

(** [func (fs *FuseFs) Rmdir(name string, context)] *)
Definition Rmdir (fs : FuseFs Auth) (name : string) : M Auth Status :=
  let name := "/" +:+ name in
  '(item, err) ← GetItem name (FsAuth fs);
  match err with
  | Some _ => mret EREMOTEIO
  | None =>
      p ← lift item;
      d ← load p;
      err ← Delete ("/me/drive/items/" +:+ ID d) (FsAuth fs);
      match err with
      | Some _ => mret EREMOTEIO
      | None => mret OK
      end
  end.

(** [ignoredFiles] *)
Definition ignoredFiles : list string :=
  ["/BDMV"; "/.Trash"; "/.Trash-1000"; "/.xdg-volume-info"; "/autorun.inf";
   "/.localized"; "/.DS_Store"; "/._."; "/.hidden"].

(** the loop of [ignore] *)
Fixpoint ignore_in (l : list string) (path : string) : bool :=
  match l with
  | [] => false
  | x :: l' => if String.eqb path x then true else ignore_in l' path
  end.

(** [func ignore(path string) bool] *)
Definition ignore (path : string) : bool := ignore_in ignoredFiles path.

(** [func (fs *FuseFs) GetAttr(name string, context)] *)
Definition FuseFs_GetAttr (fs : FuseFs Auth) (name : string)
  : M Auth (option Attr * Status) :=
  let name := "/" +:+ name in
  if ignore name then mret (None, ENOENT)
  else
    '(item, err) ← GetItem name (FsAuth fs);
    match err with
    | Some _ => mret (None, ENOENT)
    | None =>
        p ← lift item;
        d ← load p;
        let size := FakeSize d in
        atime ← lift (MTime d);
        mtime ← lift (MTime d);
        ctime ← lift (MTime d);
        mode_ ← Mode p;
        mret (Some (mkAttr 0 size 0 atime mtime ctime 0 0 0 mode_ 0
                      (mkOwner (GoInt.uint32 Getuid) (GoInt.uint32 Getgid))
                      0 0),
              OK)
    end.

(** [func (fs *FuseFs) Chown(name, uid, gid, context)] *)
Definition Chown (fs : FuseFs Auth) (name : string) (uid gid : Z)
  : M Auth Status := mret EPERM.

(** [func (fs *FuseFs) Chmod(name, mode, context)] *)
Definition Chmod (fs : FuseFs Auth) (name : string) (mode_ : Z)
  : M Auth Status := mret EPERM.

(** the loop of [OpenDir] over the children *)
Fixpoint OpenDir_loop (children_ : list loc) (c : list DirEntry)
  : M Auth (list DirEntry) :=
  match children_ with
  | [] => mret c
  | child :: rest =>
      d ← load child;
      mode_ ← Mode child;
      OpenDir_loop rest (c ++ [mkDirEntry (Name d) mode_])
  end.

(** [func (fs *FuseFs) OpenDir(name string, context)] *)
Definition OpenDir (fs : FuseFs Auth) (name : string)
  : M Auth (list DirEntry * Status) :=
  let name := "/" +:+ name in
  '(children_, err) ← GetChildrenOf name (FsAuth fs);
  match err with
  | Some _ => mret ([], ENOENT)
  | None =>
      c ← OpenDir_loop (match children_ with
                        | None => []
                        | Some m => (range_order m).*2
                        end) [];
      mret (c, OK)
  end.

(** [func (fs *FuseFs) Open(name string, flags uint32, context)]: the
    bytes of the data file returned, and the status *)
Definition Open (fs : FuseFs Auth) (name : string) (flags : Z)
  : M Auth (option (list byte) * Status) :=
  let name := "/" +:+ name in
  '(item, err) ← GetItem name (FsAuth fs);
  match err with
  | Some _ => mret (None, ENOENT)
  | None =>
      if negb (Z.eqb (Z.land flags O_ANYWRITE) 0) then mret (None, EPERM)
      else
        p ← lift item;
        d ← load p;
        '(body, err) ← http remote
                         (ReqGet ("/me/drive/items/" +:+ ID d +:+ "/content")
                                 (FsAuth fs));
        match err with
        | Some _ => mret (None, ENOENT)
        | None => mret (Some (elems body), OK)
        end
  end.

End FuseFsMethods.

(* ===================================================================== *)
(** ** Predicates of the statements *)
(* ===================================================================== *)

(** an element of a listing that the loop of [GetChildren] accepts: not
    [null], and with a ["parentReference"] object *)
Definition listed (c : option ItemJSON) : Prop :=
  exists j pj, c = Some j /\ j_parentReference j = Value pj.

(** the children in [m] are items of the heap [h] other than [p], none of
    them with local changes *)
Definition clean_children {Auth} (h : gmap loc (DriveItem Auth)) (p : loc)
    (m : gmap string loc) : Prop :=
  forall name q, m !! name = Some q ->
    q <> p /\ exists c, h !! q = Some c /\ hasChanges c = false.

(** the world after one more request *)
Definition sent {Auth} (r : Request Auth) (st : State Auth) : State Auth :=
  mkState (heap st) (net st ++ [r]) (clock st).

(** every item of [st] that satisfies [P] is still an item of [st'], and
    still satisfies [P] *)
Definition kept {Auth} (P : DriveItem Auth -> Prop) (st st' : State Auth)
  : Prop :=
  forall p d, heap st !! p = Some d -> P d ->
    exists d', heap st' !! p = Some d' /\ P d'.

(** a property of items that every field write of the methods preserves *)
Record Sticky {Auth} (P : DriveItem Auth -> Prop) : Prop := mkSticky {
  sticky_Parent : forall v d, P d -> P (set_Parent v d);
  sticky_children : forall m d, P d -> P (set_children (Some m) d);
  sticky_content :
    forall s d, P d -> P (set_File true (set_data (Some s) d));
  sticky_buffer :
    forall s n d, P d ->
      P (set_hasChanges true (set_Size n (set_data (Some s) d)));
  sticky_unmarshal : forall j d, P d -> P (Json.unmarshal_into j d);
  sticky_ModifyTime : forall t d, P d -> P (set_ModifyTime t d);
  sticky_mode : forall m d, P d -> P (set_mode m d)
}.

(** the item has local changes *)
Definition dirty {Auth} (d : DriveItem Auth) : Prop := hasChanges d = true.

(** the children map of the item is not nil *)
Definition has_children_map {Auth} (d : DriveItem Auth) : Prop :=
  children d <> None.

(** the child at [q] is a directory of the heap *)
Definition is_subdir {Auth} (h : gmap loc (DriveItem Auth)) (q : loc) : bool :=
  match h !! q with
  | Some c => IsDir c
  | None => false
  end.

(** the number of entries of a children map that are directories *)
Definition subdir_count {Auth} (h : gmap loc (DriveItem Auth))
    (m : gmap string loc) : nat :=
  size (filter (fun kv => is_subdir h kv.2 = true) m).

(** the string ends in a word character *)
Definition ends_in_word (s : string) : Prop :=
  exists c, Strings.last s = Some c /\ Regexp.is_word c = true.

(** the string is empty or ends in a character that is not a word
    character *)
Definition ends_nonword (s : string) : Prop :=
  match Strings.last s with
  | None => True
  | Some c => Regexp.is_word c = false
  end.

(** from the item at [q], [n] steps along the parent pointers lead to the
    item at [r], the first one on the way whose cached parent path is
    empty *)
Inductive reaches_root {Auth} (h : gmap loc (DriveItem Auth))
  : loc -> nat -> loc -> Prop :=
| reaches_here q d par :
    h !! q = Some d -> Parent d = Some par ->
    ParentPath par = EmptyString ->
    reaches_root h q 0 q
| reaches_up q d par q' n r :
    h !! q = Some d -> Parent d = Some par ->
    ParentPath par <> EmptyString ->
    ParentItem par = Some q' ->
    reaches_root h q' n r ->
    reaches_root h q (S n) r.

(** the heap [h'] holds the items of [h], some of them with their mode
    initialised by [Mode] *)
Definition moded {Auth} (h h' : gmap loc (DriveItem Auth)) : Prop :=
  forall q,
    match h !! q with
    | Some d => h' !! q = Some d \/ h' !! q = Some (snd (Mode_item d))
    | None => h' !! q = None
    end.

(** the directory entry of the item at [q]: its name and its mode *)
Definition entry_of {Auth} (h : gmap loc (DriveItem Auth)) (q : loc)
    (e : DirEntry) : Prop :=
  exists d, h !! q = Some d /\ e = mkDirEntry (Name d) (fst (Mode_item d)).

(** the children in [m] are new items of the heap [h], registered under
    their names and pointing back to the directory at [p] *)
Definition linked {Auth} (h : gmap loc (DriveItem Auth)) (p : loc)
    (m : gmap string loc) : Prop :=
  forall name q, m !! name = Some q ->
    q <> p /\
    exists c par, h !! q = Some c /\ Name c = name /\
                  Parent c = Some par /\ ParentItem par = Some p /\
                  children c = None /\ data c = None.

(* ===================================================================== *)
(** ** Concrete items and collaborators used in the examples *)
(* ===================================================================== *)

Module Ex.

Local Open Scope string_scope.

(** the bytes of "HEL" and of "LO" *)
Definition HEL : list byte := [x48; x45; x4c].
Definition LO : list byte := [x4c; x4f].

(** the runtime doubles the capacity *)
Definition double (oldcap needed : Z) : Z := 2 * oldcap.

(** a regular file fetched from the service, with its content loaded *)
Definition file (content : list byte) : DriveItem unit :=
  mkItem true None (Some (Slice.of_bytes content)) false "id-7" "notes"
    (Z.of_nat (length content)) (Some 1500000000) 0
    (Some (mkParent "id-1" "/drive/root:/docs" None)) None None
    (Some "text/plain").

(** a new, empty local file: what [NewDriveItem] builds *)
Definition blank : DriveItem unit :=
  mkItem true None (Some Slice.nil_slice) false "" "draft" 0
    (Some 1500000000) 33188
    (Some (mkParent "id-1" "/drive/root:/docs" None)) (Some ∅) None None.

(** a world whose only item is the blank file, at location 1 *)
Definition blank_world : State unit :=
  mkState {[ 1%positive := blank ]} [] 1500000000.

(** the root folder as the service describes it, children not listed *)
Definition root : DriveItem unit :=
  mkItem false (Some tt) None false "id-0" "root" 0 (Some 1500000000) 0
    (Some (mkParent "" "" None)) None (Some 3) None.

(** a world whose only item is the root, at location 1 *)
Definition root_world : State unit :=
  mkState {[ 1%positive := root ]} [] 1500000000.

Definition children_url (path : string) : string :=
  "/me/drive/root:" +:+ path +:+ ":/children".

(** a service that answers every request, one that answers none, and one
    that fails the first request only *)
Definition online (sent : list (Request unit)) (r : Request unit)
  : slice * option error :=
  (Slice.of_bytes [x7b; x7d], None).
Definition offline (sent : list (Request unit)) (r : Request unit)
  : slice * option error :=
  (Slice.nil_slice, Some "no route to host").
Definition flaky (sent : list (Request unit)) (r : Request unit)
  : slice * option error :=
  match sent with
  | [] => (Slice.nil_slice, Some "timeout")
  | _ => (Slice.of_bytes [x7b; x7d], None)
  end.

Definition under_root : jfield ParentJSON :=
  Value (mkParentJSON (Value "id-0") (Value "/drive/root:")).
Definition folder_json (name id : string) : ItemJSON :=
  mkItemJSON (Value id) (Value name) Absent (Value 1500000000) under_root
    (Value (Value 0)) Absent.
Definition file_json (name id : string) (size : Z) : ItemJSON :=
  mkItemJSON (Value id) (Value name) (Value size) (Value 1500000000)
    under_root Absent (Value (Value "text/plain")).

(** a listing of two folders and one file *)
Definition listing (body : list byte) : list (option ItemJSON) :=
  [Some (folder_json "docs" "id-2"); Some (folder_json "pics" "id-3");
   Some (file_json "notes" "id-4" 3)].

(** the answer to an upload: the identifier and the size of the item *)
Definition uploaded (body : list byte) : ItemJSON * option error :=
  (mkItemJSON (Value "id-9") Absent (Value 2) Absent Absent Absent Absent,
   None).

(** a resolver that finds nothing *)
Definition unresolved (path : string) (a : unit)
  : M unit (option loc * option error) :=
  mret (None, Some "itemNotFound").

(** the body of the request that creates a folder *)
Definition quoted (s : string) : string :=
  String (ascii_of_nat 34) (s +:+ String (ascii_of_nat 34) EmptyString).
Definition new_folder_body (child : string) : list byte :=
  list_byte_of_string
    ("{" +:+ quoted "name" +:+ ":" +:+ quoted child +:+ ","
         +:+ quoted "folder" +:+ ":{}}").

(** the root after the listing: two folders and a file below it *)
Definition dir_item (name id : string) : DriveItem unit :=
  mkItem false None None false id name 0 (Some 1500000000) 0
    (Some (mkParent "id-0" "/drive/root:" (Some 1%positive))) None (Some 0)
    None.
Definition notes_item : DriveItem unit :=
  mkItem false None None false "id-4" "notes" 3 (Some 1500000000) 0
    (Some (mkParent "id-0" "/drive/root:" (Some 1%positive))) None None
    (Some "text/plain").
Definition root_children : gmap string loc :=
  list_to_map [("docs", 2%positive); ("pics", 3%positive);
               ("notes", 4%positive)].
Definition root_listed : DriveItem unit :=
  set_children (Some root_children) root.
Definition tree : gmap loc (DriveItem unit) :=
  list_to_map [(1%positive, root_listed); (2%positive, dir_item "docs" "id-2");
               (3%positive, dir_item "pics" "id-3"); (4%positive, notes_item)].
Definition tree_world : State unit :=
  mkState tree [ReqGet (children_url "/") tt] 1500000000.

(** the bytes of "HELLOWORLD" and of "HELLO" *)
Definition HELLOWORLD : list byte :=
  [x48; x45; x4c; x4c; x4f; x57; x4f; x52; x4c; x44].
Definition HELLO : list byte := [x48; x45; x4c; x4c; x4f].

(** a file in the folder "docs" of the tree, described as the service
    describes it *)
Definition docs_draft : DriveItem unit :=
  mkItem false None None false "id-8" "draft" 0 (Some 1500000000) 0
    (Some (mkParent "id-2" "/drive/root:/docs" (Some 2%positive))) None None
    (Some "text/plain").

(** a world whose only item is the fetched file "HELLO", at location 1 *)
Definition file_world : State unit :=
  mkState {[ 1%positive := file HELLO ]} [] 1500000000.

(** the notes of the tree, with local changes *)
Definition notes_edited : DriveItem unit := set_hasChanges true notes_item.

(** a resolver that must not be called, one that resolves every path to
    the notes of the tree, and listings by path that fail or give the
    children of the root *)
Definition no_lookup (path : string) (a : unit)
  : M unit (option loc * option error) := panic.
Definition resolve_notes (path : string) (a : unit)
  : M unit (option loc * option error) := mret (Some 4%positive, None).
Definition unlisted (path : string) (a : unit)
  : M unit (option (gmap string loc) * option error) :=
  mret (None, Some "itemNotFound").
Definition list_root (path : string) (a : unit)
  : M unit (option (gmap string loc) * option error) :=
  mret (Some root_children, None).

End Ex.

(* ===================================================================== *)
(** ** Tactics *)
(* ===================================================================== *)

(** unfolding of the steps of a computation on the world *)
Ltac run_go :=
  unfold mbind, M_bind, mret, M_ret, lift, load, store, panic; simpl.

(** destructs the next step of a computation that is known to return *)
Ltac innermost t :=
  lazymatch t with
  | match ?x with _ => _ end => innermost x
  | _ => t
  end.

Ltac step_go H :=
  lazymatch type of H with
  | ?l = _ =>
      lazymatch l with
      | match ?x with _ => _ end =>
          let y := innermost x in
          destruct y eqn:?; simpl in H; try discriminate H
      | (match ?x with _ => _ end) _ =>
          let y := innermost x in
          destruct y eqn:?; simpl in H; try discriminate H
      end
  end.

Ltac start_go H :=
  unfold mbind, M_bind, mret, M_ret, lift, load, store, Get, Put, http,
    time_Now, alloc in H;
  simpl in H; repeat step_go H; simplify_eq.

(* ===================================================================== *)
(** ** Properties: integers and slices *)
(* ===================================================================== *)

Lemma int_small z : GoInt.is_int z -> GoInt.int z = z.
Proof.
  unfold GoInt.is_int, GoInt.int, GoInt.two63, GoInt.two64.
  intros H. rewrite Z.mod_small; lia.
Qed.

Lemma int_range z : GoInt.is_int (GoInt.int z).
Proof.
  unfold GoInt.is_int, GoInt.int, GoInt.two63, GoInt.two64.
  pose proof (Z.mod_pos_bound (z + 2 ^ 63) (2 ^ 64) ltac:(lia)). lia.
Qed.

Lemma uint32_small z : GoInt.is_uint32 z -> GoInt.uint32 z = z.
Proof. unfold GoInt.is_uint32, GoInt.uint32. intros H. apply Z.mod_small, H. Qed.

Lemma uint64_small z : GoInt.is_uint64 z -> GoInt.uint64 z = z.
Proof. unfold GoInt.is_uint64, GoInt.uint64. intros H. apply Z.mod_small, H. Qed.

Lemma len_le_cap s : Slice.len s <= Slice.cap s.
Proof. unfold Slice.len, Slice.cap. lia. Qed.

Lemma len_nonneg s : 0 <= Slice.len s.
Proof. unfold Slice.len. lia. Qed.

Lemma range_Some s lo hi :
  0 <= lo <= hi -> hi <= Slice.cap s ->
  Slice.range s lo hi =
    Some (mkSlice (take (Z.to_nat (hi - lo)) (drop (Z.to_nat lo) (Slice.backing s)))
                  (drop (Z.to_nat (hi - lo)) (drop (Z.to_nat lo) (Slice.backing s)))).
Proof.
  intros [H0 H1] H2. unfold Slice.range.
  destruct (Z.leb_spec 0 lo); [|lia].
  destruct (Z.leb_spec lo hi); [|lia].
  destruct (Z.leb_spec hi (Slice.cap s)); [|lia].
  reflexivity.
Qed.

Lemma range_None s lo hi :
  lo < 0 \/ hi < lo \/ Slice.cap s < hi -> Slice.range s lo hi = None.
Proof.
  intros H. unfold Slice.range.
  destruct (Z.leb_spec 0 lo); simpl; [|reflexivity].
  destruct (Z.leb_spec lo hi); simpl; [|reflexivity].
  destruct (Z.leb_spec hi (Slice.cap s)); simpl; [lia|reflexivity].
Qed.

(** a slice within the length shows the bytes of the content *)
Lemma range_within_elems s lo hi r :
  0 <= lo <= hi -> hi <= Slice.len s ->
  Slice.range s lo hi = Some r ->
  elems r = take (Z.to_nat (hi - lo)) (drop (Z.to_nat lo) (elems s)).
Proof.
  intros Hlo Hhi. pose proof (len_le_cap s).
  rewrite range_Some by lia. intros [= <-]. simpl.
  unfold Slice.backing, Slice.len in *.
  rewrite drop_app_le by lia.
  rewrite take_app_le; [reflexivity|].
  rewrite length_drop. lia.
Qed.

Lemma append_elems growcap s l :
  elems (Slice.append growcap s l) = elems s ++ l.
Proof. unfold Slice.append. case_match; reflexivity. Qed.

(* ===================================================================== *)
(** ** Properties: [Read], [Write], [Truncate] *)
(* ===================================================================== *)

Section ReadWrite.

Context {Auth : Type}.
Variable growcap : Z -> Z -> Z.
Implicit Type d : DriveItem Auth.

(** Inside the content, and at its end, [Read] returns the bytes from
    the offset on, at most as many as the buffer holds. *)
Lemma Read_within d s buf off :
  data d = Some s ->
  0 <= off <= Slice.len s ->
  off + Z.of_nat (length buf) < GoInt.two63 ->
  Read d buf off =
    Some (take (length buf) (drop (Z.to_nat off) (elems s)), OK).
Proof.
  intros Hd Hoff Hsum. unfold Read. rewrite Hd. simpl.
  assert (Hi : GoInt.is_int off)
    by (unfold GoInt.is_int, GoInt.two63 in *; lia).
  rewrite (int_small off Hi).
  rewrite int_small
    by (unfold GoInt.is_int, GoInt.two63 in *; lia).
  pose proof (len_le_cap s) as Hcap.
  destruct (Z.gtb_spec (off + Z.of_nat (length buf)) (Slice.len s)) as [Hgt|Hle].
  - destruct (Slice.range s off (Slice.len s)) as [r|] eqn:Hr.
    + simpl. f_equal. f_equal.
      rewrite (range_within_elems s off (Slice.len s) r) by (lia || exact Hr).
      unfold Slice.len in *.
      rewrite !take_ge; [reflexivity| |]; rewrite length_drop; lia.
    + rewrite range_Some in Hr by lia. discriminate.
  - destruct (Slice.range s off (off + Z.of_nat (length buf))) as [r|] eqn:Hr.
    + simpl. f_equal. f_equal.
      rewrite (range_within_elems s off (off + Z.of_nat (length buf)) r)
        by (lia || exact Hr).
      f_equal. lia.
    + rewrite range_Some in Hr by lia. discriminate.
Qed.

(** An item whose content was never loaded has a nil [data] pointer, and
    reading it panics. *)
Lemma Read_nil_data d buf off : data d = None -> Read d buf off = None.
Proof. intros H. unfold Read. rewrite H. reflexivity. Qed.

(** C1 (the code departs from it): [Read] clips the end of the window to
    the content length but not its start, so for every offset strictly
    past the end of the content the slice expression [data[off:end]] is
    out of bounds and [Read] panics instead of returning an empty slice
    with an OK status. *)
Theorem Read_past_end_faults d s buf off :
  data d = Some s ->
  Slice.len s < off ->
  Read d buf off = None.
Proof.
  intros Hd Hoff. unfold Read. rewrite Hd. simpl.
  set (e := GoInt.int (GoInt.int off + Z.of_nat (length buf))).
  destruct (Z.gtb_spec e (Slice.len s)).
  - rewrite range_None by lia. reflexivity.
  - rewrite range_None by lia. reflexivity.
Qed.

(** A negative offset panics as well. *)
Lemma Read_negative_faults d buf off : off < 0 -> Read d buf off = None.
Proof.
  intros Hoff. unfold Read. destruct (data d) as [s|]; [|reflexivity]. simpl.
  rewrite range_None by lia. reflexivity.
Qed.

End ReadWrite.

(** The failing read: 4 bytes at offset 5 of the 3-byte file "HEL". *)
Lemma Read_past_end_faults_witness :
  data (Ex.file Ex.HEL) = Some (Slice.of_bytes Ex.HEL) /\
  Slice.len (Slice.of_bytes Ex.HEL) < 5 /\
  Read (Ex.file Ex.HEL) [x00; x00; x00; x00] 5 = None.
Proof.
  split; [reflexivity|]. split; [vm_compute; reflexivity|].
  apply (Read_past_end_faults (Ex.file Ex.HEL) (Slice.of_bytes Ex.HEL)).
  - reflexivity.
  - vm_compute. reflexivity.
Defined.

Section WriteThenRead.

Context {Auth : Type}.
Variable growcap : Z -> Z -> Z.
Implicit Type d : DriveItem Auth.

(** When the write reaches the last byte of the file or beyond, and the
    offset is within the capacity, the content becomes the backing array
    up to the offset followed by the bytes written. *)
Lemma Write_item_append d s B off :
  data d = Some s ->
  0 <= off <= Slice.cap s ->
  GoInt.is_int off ->
  GoInt.int (off + Z.of_nat (length B)) > GoInt.int (GoInt.int (Size d) - 1) ->
  exists d' s',
    Write_item growcap d B off =
      Some (d', (GoInt.uint32 (Z.of_nat (length B)), OK)) /\
    data d' = Some s' /\
    elems s' = take (Z.to_nat off) (Slice.backing s) ++ B /\
    hasChanges d' = true /\
    Size d' = GoInt.uint64 (Slice.len s').
Proof.
  intros Hd Hoff Hi Hcmp. unfold Write_item. rewrite Hd. simpl.
  rewrite (int_small off Hi).
  destruct (Z.gtb_spec (GoInt.int (off + Z.of_nat (length B)))
                       (GoInt.int (GoInt.int (Size d) - 1))); [|lia].
  unfold Slice.upto. rewrite range_Some by lia. simpl.
  eexists _, _. split; [reflexivity|]. simpl.
  split; [reflexivity|]. split; [|split; reflexivity].
  rewrite append_elems. simpl. rewrite drop_0, Z.sub_0_r. reflexivity.
Qed.

(** The first half of the round trip of the design document: writing [B]
    at offset 0 of an empty item and reading [len(B)] bytes at offset 0
    gives [B] back. *)
Lemma Write_Read_roundtrip d s B buf :
  data d = Some s -> elems s = [] -> Size d = 0 ->
  Z.of_nat (length B) < GoInt.two63 ->
  length buf = length B ->
  exists d',
    Write_item growcap d B 0 =
      Some (d', (GoInt.uint32 (Z.of_nat (length B)), OK)) /\
    Read d' buf 0 = Some (B, OK).
Proof.
  intros Hd Hs Hsz HB Hbuf.
  assert (Hi0 : GoInt.is_int 0) by (unfold GoInt.is_int, GoInt.two63; lia).
  assert (HiB : GoInt.is_int (Z.of_nat (length B)))
    by (unfold GoInt.is_int, GoInt.two63 in *; lia).
  destruct (Write_item_append d s B 0 Hd) as (d' & s' & HW & Hd' & He & _).
  - pose proof (len_le_cap s). pose proof (len_nonneg s). lia.
  - exact Hi0.
  - rewrite Hsz, (int_small 0 Hi0), Z.add_0_l, (int_small _ HiB).
    change (GoInt.int (0 - 1)) with (-1). lia.
  - exists d'. split; [exact HW|].
    simpl in He.
    rewrite (Read_within d' s' buf 0 Hd').
    + rewrite He, Hbuf. change (Z.to_nat 0) with 0%nat.
      rewrite drop_0, firstn_all. reflexivity.
    + unfold Slice.len. lia.
    + lia.
Qed.

(** A write that starts exactly at the end of the content appends: the
    old content is followed by the bytes written. *)
Lemma Write_at_end_appends d s B :
  data d = Some s -> Size d = Slice.len s ->
  Slice.len s + Z.of_nat (length B) < GoInt.two63 ->
  exists d' s',
    Write_item growcap d B (Slice.len s) =
      Some (d', (GoInt.uint32 (Z.of_nat (length B)), OK)) /\
    data d' = Some s' /\ elems s' = elems s ++ B.
Proof.
  intros Hd Hsz Hsum. pose proof (len_nonneg s) as H0.
  assert (Hi : forall z, - 1 <= z <= Slice.len s + Z.of_nat (length B) ->
                         GoInt.int z = z).
  { intros z Hz. apply int_small. unfold GoInt.is_int, GoInt.two63 in *. lia. }
  destruct (Write_item_append d s B (Slice.len s) Hd)
    as (d' & s' & HW & Hd' & He & _).
  - pose proof (len_le_cap s). lia.
  - unfold GoInt.is_int, GoInt.two63 in *. lia.
  - rewrite Hsz, (Hi (Slice.len s)), (Hi (Slice.len s - 1)),
      (Hi (Slice.len s + Z.of_nat (length B))) by lia. lia.
  - exists d', s'. split; [exact HW|]. split; [exact Hd'|].
    rewrite He. unfold Slice.backing, Slice.len.
    rewrite Nat2Z.id, take_app_length. reflexivity.
Qed.

(** When a write at an offset past the content does return (the offset
    is within the capacity), the bytes of the old content are intact. *)
Lemma Write_past_end_keeps_content d s B off d' r :
  data d = Some s ->
  Slice.len s <= off ->
  GoInt.is_int off ->
  Write_item growcap d B off = Some (d', r) ->
  exists s', data d' = Some s' /\
             take (length (elems s)) (elems s') = elems s.
Proof.
  intros Hd Hoff Hi. unfold Write_item. rewrite Hd. simpl.
  rewrite (int_small off Hi). pose proof (len_nonneg s) as H0.
  case_match.
  - unfold Slice.upto.
    destruct (Slice.range s 0 off) as [pre|] eqn:Hr; simpl; [|discriminate].
    intros [= <- <-]. eexists. split; [reflexivity|].
    rewrite append_elems.
    destruct (Z.le_gt_cases off (Slice.cap s)) as [Hc|Hc];
      [|rewrite range_None in Hr by lia; discriminate].
    rewrite range_Some in Hr by lia. injection Hr as <-. simpl.
    rewrite drop_0, Z.sub_0_r. unfold Slice.backing, Slice.len in *.
    rewrite take_app_le by (rewrite length_take, length_app; lia).
    rewrite take_take, Nat.min_l by lia.
    apply take_app_length.
  - unfold Slice.copy_at, Slice.from.
    destruct (Slice.range s off (Slice.len s)) as [dst|] eqn:Hr; simpl;
      [|discriminate].
    intros [= <- <-]. eexists. split; [reflexivity|]. simpl.
    destruct (Z.le_gt_cases off (Slice.len s)) as [Hc|Hc];
      [|rewrite range_None in Hr by lia; discriminate].
    unfold Slice.len in *.
    rewrite (take_ge (elems s) (Z.to_nat off)) by lia.
    apply take_app_length.
Qed.

End WriteThenRead.

Section WriteFaults.

Context {Auth : Type}.
Variable growcap : Z -> Z -> Z.
Implicit Type d : DriveItem Auth.

Lemma Write_item_beyond_capacity d s B off :
  data d = Some s -> GoInt.is_int off -> Slice.cap s < off ->
  Write_item growcap d B off = None.
Proof.
  intros Hd Hi Hoff. unfold Write_item. rewrite Hd. simpl.
  rewrite (int_small off Hi). pose proof (len_le_cap s).
  case_match.
  - unfold Slice.upto. rewrite range_None by lia. reflexivity.
  - unfold Slice.copy_at, Slice.from. rewrite range_None by lia. reflexivity.
Qed.

(** C3 (the code departs from it): a write at an offset beyond the
    content does not always append.  [Write] slices the buffer up to the
    offset before appending, and when the offset is beyond the capacity
    of the buffer (always the case for a new, empty item and a positive
    offset) the slice expression is out of bounds and [Write] panics. *)
Theorem Write_beyond_capacity_faults p d s B off (st : State Auth) :
  heap st !! p = Some d ->
  data d = Some s ->
  GoInt.is_int off ->
  Slice.cap s < off ->
  Write growcap p B off st = None.
Proof.
  intros Hp Hd Hi Hoff. unfold Write. run_go. rewrite Hp.
  rewrite (Write_item_beyond_capacity d s B off Hd Hi Hoff). reflexivity.
Qed.

End WriteFaults.

(** The failing write: the two bytes "LO" at offset 1 of a new empty file. *)
Lemma Write_beyond_capacity_faults_witness :
  heap Ex.blank_world !! 1%positive = Some Ex.blank /\
  data Ex.blank = Some Slice.nil_slice /\
  GoInt.is_int 1 /\
  Slice.cap Slice.nil_slice < 1 /\
  Write Ex.double 1%positive Ex.LO 1 Ex.blank_world = None.
Proof.
  assert (H1 : heap Ex.blank_world !! 1%positive = Some Ex.blank)
    by reflexivity.
  assert (H2 : GoInt.is_int 1) by (unfold GoInt.is_int, GoInt.two63; lia).
  assert (H3 : Slice.cap Slice.nil_slice < 1) by reflexivity.
  split; [exact H1|]. split; [reflexivity|]. split; [exact H2|].
  split; [exact H3|].
  exact (Write_beyond_capacity_faults Ex.double 1%positive Ex.blank
           Slice.nil_slice Ex.LO 1 Ex.blank_world H1 eq_refl H2 H3).
Defined.

(* ===================================================================== *)
(** ** Properties: [Path] *)
(* ===================================================================== *)

Lemma append_nil (s : string) : EmptyString +:+ s = s.
Proof. reflexivity. Qed.

Lemma append_cons (c : ascii) (p s : string) :
  String c p +:+ s = String c (p +:+ s).
Proof. reflexivity. Qed.

Lemma append_assoc (a b c : string) : (a +:+ b) +:+ c = a +:+ b +:+ c.
Proof.
  induction a as [|x a IH]; [reflexivity|].
  rewrite !append_cons, IH. reflexivity.
Qed.

Lemma HasPrefix_app (p rest : string) : Strings.HasPrefix (p +:+ rest) p = true.
Proof.
  induction p as [|c p IH]; [reflexivity|].
  rewrite append_cons. simpl. rewrite Ascii.eqb_refl. exact IH.
Qed.

Lemma HasPrefix_inv (s p : string) :
  Strings.HasPrefix s p = true -> exists rest, s = p +:+ rest.
Proof.
  revert s. induction p as [|c p IH]; intros s H; simpl in *.
  - exists s. reflexivity.
  - destruct s as [|e s]; [discriminate|].
    destruct (Ascii.eqb_spec c e) as [->|]; [|discriminate].
    destruct (IH s H) as [rest ->]. exists rest. reflexivity.
Qed.

Lemma from_app (p rest : string) :
  Strings.from (String.length p) (p +:+ rest) = rest.
Proof.
  induction p as [|c p IH]; [reflexivity|].
  rewrite append_cons. simpl. exact IH.
Qed.

Lemma upto_from (n : nat) (s : string) :
  Strings.upto n s +:+ Strings.from n s = s.
Proof.
  revert s. induction n as [|n IH]; intros s; simpl; [reflexivity|].
  destruct s as [|c s]; [reflexivity|].
  rewrite append_cons, IH. reflexivity.
Qed.

(** [TrimPrefix] removes the prefix when it is there *)
Lemma TrimPrefix_app (p rest : string) :
  Strings.TrimPrefix (p +:+ rest) p = rest.
Proof. unfold Strings.TrimPrefix. rewrite HasPrefix_app. apply from_app. Qed.

(** and leaves every other string as it is *)
Lemma TrimPrefix_no_prefix (s p : string) :
  (forall rest, s <> p +:+ rest) -> Strings.TrimPrefix s p = s.
Proof.
  intros H. unfold Strings.TrimPrefix.
  destruct (Strings.HasPrefix s p) eqn:E; [|reflexivity].
  destruct (HasPrefix_inv s p E) as [rest ->]. exfalso. eapply H. reflexivity.
Qed.

Section PathProps.

Context {Auth : Type}.
Implicit Type d : DriveItem Auth.
Local Open Scope string_scope.

(** [Path] is a function of the item's own cached fields (it takes
    no world and sends no request).  The root, whose cached parent path
    is empty and whose name is "root", has path "/".  For every other
    item the path is the cached parent path joined with "/" and the
    item's name, with the prefix "/drive/root:" removed when the joined
    string starts with it and the joined string itself otherwise. *)
Theorem Path_from_cached_metadata d par :
  Parent d = Some par ->
  let joined := ParentPath par +:+ "/" +:+ Name d in
  (ParentPath par = "" /\ Name d = "root" -> Path d = Some "/") /\
  (~ (ParentPath par = "" /\ Name d = "root") ->
     (forall rest, joined = "/drive/root:" +:+ rest -> Path d = Some rest) /\
     ((forall rest, joined <> "/drive/root:" +:+ rest) ->
        Path d = Some joined)).
Proof.
  intros Hp joined. unfold Path. rewrite Hp. simpl. split.
  - intros [-> ->]. reflexivity.
  - intros Hnr.
    assert (E : String.eqb (ParentPath par) "" && String.eqb (Name d) "root"
                = false).
    { apply not_true_is_false. intros H. apply Hnr.
      apply andb_prop in H as [H1 H2].
      split; apply String.eqb_eq; assumption. }
    rewrite E. fold joined. split.
    + intros rest ->. rewrite TrimPrefix_app. reflexivity.
    + intros H. rewrite TrimPrefix_no_prefix by exact H. reflexivity.
Qed.

(** An item without a parent descriptor cannot be asked for its path. *)
Lemma Path_nil_Parent d : Parent d = None -> Path d = None.
Proof. intros H. unfold Path. rewrite H. reflexivity. Qed.

(** With the parent path the service sends, "/drive/root:" followed by
    the parent's own path [q], the path is [q], "/" and the name. *)
Lemma Path_under_drive_root d par q :
  Parent d = Some par ->
  ParentPath par = "/drive/root:" +:+ q ->
  Path d = Some (q +:+ "/" +:+ Name d).
Proof.
  intros Hp Hq. unfold Path. rewrite Hp. simpl. rewrite Hq.
  assert (E : String.eqb ("/drive/root:" +:+ q) "" = false) by reflexivity.
  rewrite E. simpl. rewrite append_assoc, TrimPrefix_app. reflexivity.
Qed.

(** Below a parent that is not the root, the path of a child whose
    cached parent path is the parent's cached parent path, "/" and the
    parent's name (what [NewDriveItem] stores, and what the service
    sends) is the parent's path, "/" and the child's name. *)
Lemma Path_child_of_parent d (parent : DriveItem Auth) par ppar q :
  Parent parent = Some ppar ->
  ParentPath ppar = "/drive/root:" +:+ q ->
  Parent d = Some par ->
  ParentPath par = ParentPath ppar +:+ "/" +:+ Name parent ->
  exists pp, Path parent = Some pp /\ Path d = Some (pp +:+ "/" +:+ Name d).
Proof.
  intros Hpp Hq Hp Hpar.
  exists (q +:+ "/" +:+ Name parent). split.
  - apply (Path_under_drive_root parent ppar q Hpp Hq).
  - apply (Path_under_drive_root d par (q +:+ "/" +:+ Name parent) Hp).
    rewrite Hpar, Hq. rewrite !append_assoc. reflexivity.
Qed.

(** C2 (as the code has it): [Path] reads the cached fields of the item
    and nothing else.  The root has the path "/".  An item below a parent
    that is not the root, whose descriptor caches the path of the parent
    as the service sends it (the parent's own cached parent path, which
    starts with "/drive/root:", then "/" and the parent's name), has the
    path of its parent, "/" and its own name.  An item that the service
    lists directly below the root (cached parent path "/drive/root:") has
    the path "/" and its name: one slash, where the path of the root, "/"
    and the name would have two. *)
Theorem Path_relative_to_parent (h : gmap loc (DriveItem Auth))
    (c : DriveItem Auth) par q (p : DriveItem Auth) ppar :
  Parent c = Some par -> ParentItem par = Some q ->
  h !! q = Some p -> Parent p = Some ppar ->
  (ParentPath ppar = "" -> Name p = "root" ->
     Path p = Some "/" /\
     (ParentPath par = "/drive/root:" ->
        Path c = Some ("/" +:+ Name c) /\
        Path c <> Some ("/" +:+ "/" +:+ Name c))) /\
  (forall pre, ParentPath ppar = "/drive/root:" +:+ pre ->
     ParentPath par = ParentPath ppar +:+ "/" +:+ Name p ->
     exists pp, Path p = Some pp /\
                Path c = Some (pp +:+ "/" +:+ Name c)).
Proof.
  intros Hc _ _ Hp. split.
  - intros Hroot Hname. split.
    + unfold Path. rewrite Hp. simpl. rewrite Hroot, Hname. reflexivity.
    + intros Hpar.
      assert (E : Path c = Some ("/" +:+ Name c)).
      { rewrite (Path_under_drive_root c par "" Hc) by exact Hpar.
        reflexivity. }
      split; [exact E|]. rewrite E. intros H. injection H as H.
      apply (f_equal String.length) in H. simpl in H. lia.
  - intros pre Hpre Hpar.
    exists (pre +:+ "/" +:+ Name p). split.
    + apply (Path_under_drive_root p ppar pre Hp Hpre).
    + apply (Path_under_drive_root c par (pre +:+ "/" +:+ Name p) Hc).
      rewrite Hpar, Hpre. rewrite !append_assoc. reflexivity.
Qed.

End PathProps.

(** In the tree that the listing of the root builds, the root has the
    path "/" and the folder "docs" the path "/docs"; the file "draft",
    listed below "docs", has the path of "docs", "/" and its name. *)
Lemma Path_relative_to_parent_witness :
  (Path Ex.root_listed = Some "/"%string /\
   Path (Ex.dir_item "docs" "id-2") = Some "/docs"%string) /\
  exists pp, Path (Ex.dir_item "docs" "id-2") = Some pp /\
             Path Ex.docs_draft = Some (pp +:+ "/" +:+ "draft")%string.
Proof.
  split.
  - destruct (Path_relative_to_parent Ex.tree (Ex.dir_item "docs" "id-2")
                (mkParent "id-0" "/drive/root:" (Some 1%positive)) 1%positive
                Ex.root_listed (mkParent "" "" None)
                eq_refl eq_refl eq_refl eq_refl) as [H _].
    destruct (H eq_refl eq_refl) as [Hr Hc]. split; [exact Hr|].
    exact (proj1 (Hc eq_refl)).
  - destruct (Path_relative_to_parent Ex.tree Ex.docs_draft
                (mkParent "id-2" "/drive/root:/docs" (Some 2%positive))
                2%positive (Ex.dir_item "docs" "id-2")
                (mkParent "id-0" "/drive/root:" (Some 1%positive))
                eq_refl eq_refl eq_refl eq_refl) as [_ H].
    exact (H ""%string eq_refl eq_refl).
Defined.

(** C2 as it is stated fails.  Listing the root builds the tree of the
    examples; there the folder "docs" is not the root, its parent pointer
    leads to the root, whose path is "/", and its own path is "/docs",
    not the path of its parent, "/" and its name, which is "//docs". *)
Lemma Path_child_of_root_not_joined :
  GetChildren Ex.online Ex.children_url Ex.listing 1%positive tt Ex.root_world
    = Some ((Some Ex.root_children, None), Ex.tree_world) /\
  exists q c par p pp,
    Ex.root_children !! "docs"%string = Some q /\
    heap Ex.tree_world !! q = Some c /\
    Name c <> "root"%string /\
    Parent c = Some par /\ ParentItem par = Some 1%positive /\
    heap Ex.tree_world !! 1%positive = Some p /\
    Path p = Some pp /\
    Path c = Some "/docs"%string /\
    (pp +:+ "/" +:+ Name c)%string = "//docs"%string /\
    Path c <> Some (pp +:+ "/" +:+ Name c)%string.
Proof.
  split; [vm_compute; reflexivity|].
  exists 2%positive, (Ex.dir_item "docs" "id-2"),
    (mkParent "id-0" "/drive/root:" (Some 1%positive)), Ex.root_listed,
    "/"%string.
  repeat split; discriminate.
Qed.

(** The path of the fetched file "notes" in the folder "/docs". *)
Lemma Path_from_cached_metadata_witness :
  Path (Ex.file Ex.HEL) = Some "/docs/notes"%string.
Proof.
  pose proof (Path_from_cached_metadata (Ex.file Ex.HEL)
                (mkParent "id-1" "/drive/root:/docs" None) eq_refl) as [_ H].
  destruct H as [H _].
  - intros [H _]. discriminate H.
  - apply H. reflexivity.
Defined.

(** A child of the root, as the service describes it, has the path "/"
    and its name: one slash, not the root's path followed by a slash. *)
Example Path_child_of_root :
  Path (mkItem (Auth := unit) false None None false "id-2" "docs" 0 None 0
          (Some (mkParent "id-0" "/drive/root:" (Some 1%positive)))
          None (Some 3) None)
  = Some "/docs"%string.
Proof. reflexivity. Qed.

(* ===================================================================== *)
(** ** Properties: [GetChildren] *)
(* ===================================================================== *)

Section GetChildrenProps.

Context {Auth : Type}.
Variable remote :
  list (Request Auth) -> Request Auth -> slice * option error.
Variable ChildrenPath : string -> string.
Variable decodeChildren : list byte -> list (option ItemJSON).

Implicit Type d : DriveItem Auth.
Implicit Type st : State Auth.
Implicit Type p : loc.

Lemma IsDir_set_children v d : IsDir (set_children v d) = IsDir d.
Proof.
  unfold IsDir, Mode_item. simpl.
  destruct (Z.eqb (mode d) 0); [destruct (FileAPI d)|]; reflexivity.
Qed.

(** An item fresh from the decoder has no local changes, no content and
    no children map. *)
Lemma unmarshal_new_fresh (j : ItemJSON) :
  hasChanges (Json.unmarshal_new (Auth := Auth) j) = false /\
  data (Json.unmarshal_new (Auth := Auth) j) = None /\
  children (Json.unmarshal_new (Auth := Auth) j) = None.
Proof. repeat split. Qed.

(** Decoding into an existing item leaves the unexported fields alone. *)
Lemma unmarshal_into_unexported (j : ItemJSON) d :
  hasChanges (Json.unmarshal_into j d) = hasChanges d /\
  data (Json.unmarshal_into j d) = data d /\
  children (Json.unmarshal_into j d) = children d /\
  mode (Json.unmarshal_into j d) = mode d.
Proof. repeat split. Qed.

(** The loop over a well-formed listing runs to its end; it sends no
    request, writes only the children map of [p] and new items, and all
    the children it registers are clean. *)
Lemma fill_children_ok p fetched :
  Forall listed fetched ->
  forall st d m,
    heap st !! p = Some d ->
    children d = Some m ->
    clean_children (heap st) p m ->
    exists st' m',
      fill_children p fetched st = Some (tt, st') /\
      heap st' !! p = Some (set_children (Some m') d) /\
      net st' = net st /\
      clean_children (heap st') p m' /\
      (forall q x, q <> p -> heap st !! q = Some x -> heap st' !! q = Some x).
Proof.
  induction 1 as [|child rest Hc _ IH]; intros st d m Hp Hm Hclean.
  - exists st, m. simpl. run_go. repeat split; try assumption.
    + rewrite Hp. f_equal. destruct d; simpl in *; subst; reflexivity.
    + apply Hclean in H as [? _]; assumption.
    + apply Hclean in H as [_ ?]; assumption.
    + auto.
  - destruct Hc as (j & pj & -> & Hpj).
    set (q := fresh (dom (heap st))).
    assert (Hq : heap st !! q = None)
      by (apply not_elem_of_dom, is_fresh).
    assert (Hqp : q <> p) by (intros ->; rewrite Hp in Hq; discriminate).
    set (c := set_Parent
                (Some (mkParent (Json.plain (j_parent_id pj) EmptyString)
                                (Json.plain (j_parent_path pj) EmptyString)
                                (Some p)))
                (Json.unmarshal_new (Auth := Auth) j)).
    set (m2 := <[Name c := q]> m).
    set (d2 := set_children (Some m2) d).
    set (st2 := mkState (<[p := d2]> (<[q := c]> (heap st))) (net st)
                        (clock st)).
    destruct (IH st2 d2 m2) as (st' & m' & Hrun & Hp' & Hnet & Hcl & Hold).
    + simpl. apply lookup_insert_eq.
    + reflexivity.
    + intros name q' Hl. unfold m2 in Hl.
      destruct (decide (Name c = name)) as [<-|Hne].
      * rewrite lookup_insert_eq in Hl. injection Hl as <-.
        split; [exact Hqp|]. exists c. simpl.
        rewrite lookup_insert_ne by congruence.
        rewrite lookup_insert_eq. split; reflexivity.
      * rewrite lookup_insert_ne in Hl by exact Hne.
        destruct (Hclean name q' Hl) as (Hq'p & cc & Hcc & Hch).
        split; [exact Hq'p|]. exists cc. simpl.
        rewrite lookup_insert_ne by congruence.
        rewrite lookup_insert_ne by (intros ->; congruence).
        split; assumption.
    + exists st', m'. split; [|split; [|split; [|split]]].
      * simpl. run_go. unfold Json.unmarshal_new, Json.unmarshal_into.
        simpl. rewrite Hpj. simpl. unfold alloc. simpl. fold q.
        rewrite lookup_insert_ne by congruence. rewrite Hp. simpl.
        rewrite Hm. simpl.
        rewrite lookup_insert_ne by congruence. rewrite Hp.
        exact Hrun.
      * rewrite Hp'. reflexivity.
      * rewrite Hnet. reflexivity.
      * exact Hcl.
      * intros q0 x Hq0 Hx. apply Hold; [exact Hq0|]. simpl.
        rewrite lookup_insert_ne by congruence.
        rewrite lookup_insert_ne by (intros ->; congruence).
        exact Hx.
Qed.

(** The first test of [GetChildren]: nothing is fetched for an item that is
    not a directory or that has a children map. *)
Lemma GetChildren_no_fetch p d a st :
  heap st !! p = Some d ->
  IsDir d = false \/ children d <> None ->
  GetChildren remote ChildrenPath decodeChildren p a st
    = Some ((children d, None), st).
Proof.
  intros Hp Hc. unfold GetChildren. run_go. rewrite Hp.
  destruct Hc as [Hd|Hn].
  - rewrite Hd. reflexivity.
  - rewrite (bool_decide_eq_true_2 _ Hn), orb_true_r. reflexivity.
Qed.

(** C5: for a directory whose children map is not nil, and for an item
    that is not a directory, [GetChildren] returns the cached map with a
    nil error and leaves the world as it is: in particular no request is
    sent.  Two calls in a row return the same map and still send
    nothing. *)
Theorem GetChildren_cached p d a st :
  heap st !! p = Some d ->
  IsDir d = false \/ children d <> None ->
  GetChildren remote ChildrenPath decodeChildren p a st
    = Some ((children d, None), st) /\
  (r1 ← GetChildren remote ChildrenPath decodeChildren p a;
   r2 ← GetChildren remote ChildrenPath decodeChildren p a;
   mret (r1, r2)) st
    = Some (((children d, None), (children d, None)), st).
Proof.
  intros Hp Hc.
  pose proof (GetChildren_no_fetch p d a st Hp Hc) as H1.
  split; [exact H1|].
  unfold mbind, M_bind. rewrite H1, H1. reflexivity.
Qed.

(** A failed listing: the error is returned and nothing but the record of
    the request changes. *)
Lemma GetChildren_error p d a st path body e :
  heap st !! p = Some d ->
  IsDir d = true -> children d = None -> Path d = Some path ->
  remote (net st) (ReqGet (ChildrenPath path) a) = (body, Some e) ->
  GetChildren remote ChildrenPath decodeChildren p a st
    = Some ((None, Some e), sent (ReqGet (ChildrenPath path) a) st).
Proof.
  intros Hp Hdir Hnil Hpath Hrem.
  unfold GetChildren. run_go. rewrite Hp, Hdir, Hnil. simpl.
  rewrite Hpath. unfold Get, http. rewrite Hrem. reflexivity.
Qed.

(** A successful listing of well-formed items: one request is sent, the
    children map is set, and every child is a clean new item. *)
Lemma GetChildren_fetch p d a st path body :
  heap st !! p = Some d ->
  IsDir d = true -> children d = None -> Path d = Some path ->
  remote (net st) (ReqGet (ChildrenPath path) a) = (body, None) ->
  Forall listed (decodeChildren (elems body)) ->
  exists m st',
    GetChildren remote ChildrenPath decodeChildren p a st
      = Some ((Some m, None), st') /\
    net st' = net st ++ [ReqGet (ChildrenPath path) a] /\
    heap st' !! p = Some (set_children (Some m) d) /\
    clean_children (heap st') p m.
Proof.
  intros Hp Hdir Hnil Hpath Hrem Hwf.
  set (d1 := set_children (Some ∅) d).
  set (st1 := mkState (<[p := d1]> (heap st))
                      (net st ++ [ReqGet (ChildrenPath path) a]) (clock st)).
  destruct (fill_children_ok p _ Hwf st1 d1 ∅)
    as (st' & m & Hrun & Hp' & Hnet & Hcl & _).
  - simpl. apply lookup_insert_eq.
  - reflexivity.
  - intros name q Hl. rewrite lookup_empty in Hl. discriminate.
  - exists m, st'. split; [|split; [|split]].
    + unfold GetChildren. run_go. rewrite Hp, Hdir, Hnil. simpl.
      rewrite Hpath. unfold Get, http. rewrite Hrem. simpl. rewrite Hp.
      fold d1. fold st1. rewrite Hrun, Hp'. reflexivity.
    + rewrite Hnet. reflexivity.
    + rewrite Hp'. reflexivity.
    + exact Hcl.
Qed.

(** X17: the first call of [GetChildren] on a directory that was never
    listed sends exactly one request; the second call returns the same map
    and sends none. *)
Lemma GetChildren_fetch_once p d a st path body :
  heap st !! p = Some d ->
  IsDir d = true -> children d = None -> Path d = Some path ->
  remote (net st) (ReqGet (ChildrenPath path) a) = (body, None) ->
  Forall listed (decodeChildren (elems body)) ->
  exists m st',
    GetChildren remote ChildrenPath decodeChildren p a st
      = Some ((Some m, None), st') /\
    net st' = net st ++ [ReqGet (ChildrenPath path) a] /\
    GetChildren remote ChildrenPath decodeChildren p a st'
      = Some ((Some m, None), st').
Proof.
  intros Hp Hdir Hnil Hpath Hrem Hwf.
  destruct (GetChildren_fetch p d a st path body Hp Hdir Hnil Hpath Hrem Hwf)
    as (m & st' & Hrun & Hnet & Hp' & _).
  exists m, st'. split; [exact Hrun|]. split; [exact Hnet|].
  apply (GetChildren_no_fetch p _ a st' Hp'). right. discriminate.
Qed.

(** C6: when the listing request fails, [GetChildren] returns the error;
    the item is unchanged and its children map is still nil, so the next
    call sends the request again: it returns the new error if that one
    fails too, and fills the map if it succeeds. *)
Theorem GetChildren_failure_leaves_retry p d a st path body e :
  heap st !! p = Some d ->
  IsDir d = true -> children d = None -> Path d = Some path ->
  remote (net st) (ReqGet (ChildrenPath path) a) = (body, Some e) ->
  let req := ReqGet (ChildrenPath path) a in
  let st' := sent req st in
  GetChildren remote ChildrenPath decodeChildren p a st
    = Some ((None, Some e), st') /\
  heap st' !! p = Some d /\
  (forall body' e', remote (net st') req = (body', Some e') ->
     GetChildren remote ChildrenPath decodeChildren p a st'
       = Some ((None, Some e'), sent req st')) /\
  (forall body', remote (net st') req = (body', None) ->
     Forall listed (decodeChildren (elems body')) ->
     exists m st'',
       GetChildren remote ChildrenPath decodeChildren p a st'
         = Some ((Some m, None), st'') /\
       net st'' = net st ++ [req; req] /\
       heap st'' !! p = Some (set_children (Some m) d)).
Proof.
  intros Hp Hdir Hnil Hpath Hrem req st'.
  split; [exact (GetChildren_error p d a st path body e Hp Hdir Hnil Hpath Hrem)|].
  split; [exact Hp|]. split.
  - intros body' e' Hrem'.
    exact (GetChildren_error p d a st' path body' e' Hp Hdir Hnil Hpath Hrem').
  - intros body' Hrem' Hwf.
    destruct (GetChildren_fetch p d a st' path body' Hp Hdir Hnil Hpath Hrem' Hwf)
      as (m & st'' & Hrun & Hnet & Hp'' & _).
    exists m, st''. split; [exact Hrun|]. split; [|exact Hp''].
    rewrite Hnet. simpl. rewrite <- app_assoc. reflexivity.
Qed.

End GetChildrenProps.

(* ===================================================================== *)
(** ** Properties: [NLink] *)
(* ===================================================================== *)

Section NLinkProps.

Context {Auth : Type}.
Implicit Type d : DriveItem Auth.
Implicit Type h : gmap loc (DriveItem Auth).

(** The loop counts the directories among the children it visits, in
    32-bit arithmetic. *)
Lemma count_subdirs_spec h vs :
  Forall (fun q => is_Some (h !! q)) vs ->
  forall acc, GoInt.is_uint32 acc ->
    count_subdirs h vs acc =
      Some (GoInt.uint32
              (acc + Z.of_nat (length (filter (fun q => is_subdir h q = true) vs)))).
Proof.
  induction 1 as [|q vs [c Hc] _ IH]; intros acc Hacc.
  - simpl. rewrite Z.add_0_r, uint32_small by exact Hacc. reflexivity.
  - simpl. rewrite Hc. simpl.
    assert (Hs : is_subdir h q = IsDir c)
      by (unfold is_subdir; rewrite Hc; reflexivity).
    rewrite filter_cons.
    destruct (IsDir c) eqn:Hdir.
    + rewrite decide_True by exact Hs.
      rewrite IH.
      * f_equal. unfold GoInt.uint32. simpl length.
        rewrite Zplus_mod_idemp_l. f_equal. lia.
      * unfold GoInt.is_uint32, GoInt.uint32, GoInt.two32.
        apply Z.mod_pos_bound. lia.
    + rewrite decide_False by (rewrite Hs; discriminate).
      apply IH. exact Hacc.
Qed.

(** Counting along the entries of the map, in whatever order, gives the
    number of directory entries. *)
Lemma subdirs_of_map_to_list h (m : gmap string loc) :
  length (filter (fun q => is_subdir h q = true) (map_to_list m).*2)
  = subdir_count h m.
Proof.
  unfold subdir_count.
  induction m as [|name q m Hnone Hfirst IH] using map_first_key_ind.
  - rewrite map_to_list_empty, map_filter_empty, map_size_empty. reflexivity.
  - rewrite map_to_list_insert_first_key by assumption.
    rewrite fmap_cons, filter_cons. simpl.
    destruct (decide (is_subdir h q = true)) as [Hq|Hq].
    + rewrite map_filter_insert_True by exact Hq.
      rewrite map_size_insert_None
        by (apply map_lookup_filter_None; left; exact Hnone).
      simpl. rewrite IH. reflexivity.
    + rewrite map_filter_insert_False by exact Hq.
      rewrite delete_id by exact Hnone. exact IH.
Qed.

(** C8: a file has link count 1.  A directory has link count 2 plus the
    number of its cached children that are directories: 2 when the
    children map was never fetched, and 2 plus the count of directory
    entries of the map otherwise (in the 32 bits of the result). *)
Theorem NLink_spec h d :
  (IsDir d = false -> NLink h d = Some 1) /\
  (IsDir d = true -> children d = None -> NLink h d = Some 2) /\
  (IsDir d = true ->
   forall m, children d = Some m ->
     (forall name q, m !! name = Some q -> is_Some (h !! q)) ->
     2 + Z.of_nat (subdir_count h m) < GoInt.two32 ->
     NLink h d = Some (2 + Z.of_nat (subdir_count h m))).
Proof.
  unfold NLink. split; [|split].
  - intros ->. reflexivity.
  - intros -> Hnil. unfold range_children. rewrite Hnil. reflexivity.
  - intros -> m Hm Hvalid Hbound. unfold range_children. rewrite Hm.
    rewrite count_subdirs_spec.
    + simpl. rewrite subdirs_of_map_to_list.
      rewrite Z.add_0_l.
      rewrite (uint32_small (Z.of_nat (subdir_count h m)))
        by (unfold GoInt.is_uint32; lia).
      rewrite uint32_small by (unfold GoInt.is_uint32; lia).
      reflexivity.
    + apply Forall_forall. intros q Hq.
      apply list_elem_of_fmap in Hq as [[name q'] [-> Hin]].
      apply elem_of_map_to_list in Hin. eapply Hvalid. exact Hin.
    + unfold GoInt.is_uint32, GoInt.two32. lia.
Qed.

End NLinkProps.

(* ===================================================================== *)
(** ** Properties: what the method calls preserve *)
(* ===================================================================== *)

Lemma dirty_sticky {Auth} : Sticky (dirty (Auth := Auth)).
Proof. split; intros; assumption || reflexivity. Qed.

Lemma has_children_map_sticky {Auth} : Sticky (has_children_map (Auth := Auth)).
Proof. split; intros; assumption || discriminate. Qed.

Section Kept.

Context {Auth : Type}.
Variable remote :
  list (Request Auth) -> Request Auth -> slice * option error.
Variable ChildrenPath : string -> string.
Variable decodeChildren : list byte -> list (option ItemJSON).
Variable decodeItem : list byte -> ItemJSON * option error.
Variable growcap : Z -> Z -> Z.
Variable P : DriveItem Auth -> Prop.
Variable HP : Sticky P.

Implicit Type d : DriveItem Auth.
Implicit Type st : State Auth.
Implicit Type p : loc.

Lemma kept_refl st : kept P st st.
Proof. intros p d Hp Hd. exists d. split; assumption. Qed.

Lemma kept_trans st1 st2 st3 :
  kept P st1 st2 -> kept P st2 st3 -> kept P st1 st3.
Proof.
  intros H12 H23 p d Hp Hd.
  destruct (H12 p d Hp Hd) as (d2 & Hp2 & Hd2). exact (H23 p d2 Hp2 Hd2).
Qed.

(** writing an item back with the property kept *)
Lemma kept_store st p d d' n c :
  heap st !! p = Some d ->
  (P d -> P d') ->
  kept P st (mkState (<[p := d']> (heap st)) n c).
Proof.
  intros Hp Hd p0 d0 Hp0 Hd0. simpl.
  destruct (decide (p = p0)) as [<-|Hne].
  - rewrite lookup_insert_eq. exists d'. split; [reflexivity|].
    apply Hd. congruence.
  - rewrite lookup_insert_ne by exact Hne. exists d0. split; assumption.
Qed.

(** a new item leaves the others alone *)
Lemma kept_alloc st d' n c :
  kept P st (mkState (<[fresh (dom (heap st)) := d']> (heap st)) n c).
Proof.
  intros p0 d0 Hp0 Hd0. simpl.
  assert (fresh (dom (heap st)) <> p0).
  { intros <-. apply (is_fresh (dom (heap st))).
    apply elem_of_dom. eexists. exact Hp0. }
  rewrite lookup_insert_ne by assumption. exists d0. split; assumption.
Qed.

Lemma kept_same_heap st st' : heap st' = heap st -> kept P st st'.
Proof. intros E p d Hp Hd. rewrite E. exists d. split; assumption. Qed.

Ltac close_kept :=
  first
    [ apply kept_refl
    | apply kept_same_heap; reflexivity
    | apply kept_alloc
    | eapply kept_store;
      [ eassumption
      | first [ exact (fun H => H)
              | apply (sticky_Parent P HP)
              | apply (sticky_children P HP)
              | apply (sticky_content P HP)
              | apply (sticky_buffer P HP)
              | apply (sticky_unmarshal P HP)
              | apply (sticky_ModifyTime P HP)
              | apply (sticky_mode P HP) ] ] ].

Lemma fill_children_kept p fetched :
  forall st st' r,
    fill_children p fetched st = Some (r, st') -> kept P st st'.
Proof.
  induction fetched as [|child rest IH]; intros st st' r H.
  - injection H as _ <-. apply kept_refl.
  - simpl in H. unfold mbind, M_bind, lift, alloc, load, store in H.
    simpl in H. repeat step_go H. simplify_eq.
    match goal with
    | Hd : <[fresh (dom (heap st)) := ?c']> (heap st) !! p = Some ?d |- _ =>
        eapply kept_trans;
          [apply (kept_alloc st c' (net st) (clock st))|];
        eapply kept_trans; [|exact (IH _ _ _ H)];
        apply (kept_store
                 (mkState (<[fresh (dom (heap st)) := c']> (heap st))
                          (net st) (clock st)) p d _ _ _ Hd);
        apply (sticky_children P HP)
    end.
Qed.

Lemma setParent_kept p newParent st st' r :
  setParent p newParent st = Some (r, st') -> kept P st st'.
Proof. intros H. unfold setParent in H. start_go H; close_kept. Qed.

Lemma FetchContent_kept p a st st' r :
  FetchContent remote p a st = Some (r, st') -> kept P st st'.
Proof. intros H. unfold FetchContent in H. start_go H; close_kept. Qed.

Lemma Utimens_kept p atime mtime st st' r :
  Utimens p atime mtime st = Some (r, st') -> kept P st st'.
Proof. intros H. unfold Utimens in H. start_go H; close_kept. Qed.

Lemma NewDriveItem_kept name mode_ p st st' r :
  NewDriveItem name mode_ p st = Some (r, st') -> kept P st st'.
Proof. intros H. unfold NewDriveItem in H. start_go H; close_kept. Qed.

Lemma Upload_kept p a st st' r :
  Upload remote decodeItem p a st = Some (r, st') -> kept P st st'.
Proof. intros H. unfold Upload in H. start_go H; close_kept. Qed.

(** [Mode] writes the mode field, if anything *)
Lemma Mode_item_shape d :
  snd (Mode_item d) = d \/ exists m, snd (Mode_item d) = set_mode m d.
Proof.
  unfold Mode_item.
  destruct (Z.eqb (mode d) 0); [destruct (FileAPI d)|]; simpl; eauto.
Qed.

Lemma Mode_kept p st st' r :
  Mode p st = Some (r, st') -> kept P st st'.
Proof.
  intros H. unfold Mode in H. start_go H.
  eapply kept_store; [eassumption|]. intros Hd.
  match goal with
  | Hm : Mode_item ?d = (_, ?d0) |- _ =>
      destruct (Mode_item_shape d) as [E|[m E]]; rewrite Hm in E;
      simpl in E; subst d0; [assumption|apply (sticky_mode P HP); assumption]
  end.
Qed.

(** what [Write] and [Truncate] store: the buffer, the size and the flag *)
Lemma Write_item_shape d B off d' r :
  Write_item growcap d B off = Some (d', r) ->
  exists s' n, d' = set_hasChanges true (set_Size n (set_data (Some s') d)).
Proof.
  unfold Write_item. intros H.
  destruct (data d); simpl in H; [|discriminate H].
  match type of H with
  | context [if ?c then ?a else ?b] =>
      destruct (if c then a else b); simpl in H; [|discriminate H]
  end.
  injection H as <- _. eauto.
Qed.

Lemma Truncate_item_shape d size d' r :
  Truncate_item d size = Some (d', r) ->
  exists s' n, d' = set_hasChanges true (set_Size n (set_data (Some s') d)).
Proof.
  unfold Truncate_item. intros H.
  destruct (data d) as [s|]; simpl in H; [|discriminate H].
  destruct (Slice.upto s size); simpl in H; [|discriminate H].
  injection H as <- _. eauto.
Qed.

Lemma Write_kept p B off st st' r :
  Write growcap p B off st = Some (r, st') -> kept P st st'.
Proof.
  intros H. unfold Write in H.
  unfold mbind, M_bind, mret, M_ret, lift, load, store in H.
  destruct (heap st !! p) as [d|] eqn:Hp; [|discriminate H].
  destruct (Write_item growcap d B off) as [[d' r']|] eqn:HW;
    [|discriminate H].
  simpl in H. rewrite Hp in H. simplify_eq.
  destruct (Write_item_shape _ _ _ _ _ HW) as (s' & n & ->).
  close_kept.
Qed.

Lemma Truncate_kept p size st st' r :
  Truncate p size st = Some (r, st') -> kept P st st'.
Proof.
  intros H. unfold Truncate in H.
  unfold mbind, M_bind, mret, M_ret, lift, load, store in H.
  destruct (heap st !! p) as [d|] eqn:Hp; [|discriminate H].
  destruct (Truncate_item d size) as [[d' r']|] eqn:HT; [|discriminate H].
  simpl in H. rewrite Hp in H. simplify_eq.
  destruct (Truncate_item_shape _ _ _ _ HT) as (s' & n & ->).
  close_kept.
Qed.

Lemma GetChildren_kept p a st st' r :
  GetChildren remote ChildrenPath decodeChildren p a st = Some (r, st') ->
  kept P st st'.
Proof.
  intros H. unfold GetChildren in H. start_go H; try close_kept.
  match goal with
  | Hf : fill_children p _ ?st1 = Some _ |- _ =>
      apply (kept_trans st st1 st');
        [|exact (fill_children_kept p _ _ _ _ Hf)]
  end.
  close_kept.
Qed.

(** No call of a method takes the property from any item. *)
Lemma exec_kept op q st st' r :
  exec remote ChildrenPath decodeChildren decodeItem growcap op q st
    = Some (r, st') ->
  kept P st st'.
Proof.
  intros H. destruct op; unfold exec in H;
    [exact (setParent_kept _ _ _ _ _ H)|..];
    unfold mbind at 1, M_bind at 1 in H; step_go H; step_go H;
    unfold mret, M_ret in H; simplify_eq;
    eauto using GetChildren_kept, FetchContent_kept, Write_kept, Upload_kept,
      Utimens_kept, Truncate_kept, Mode_kept, NewDriveItem_kept.
Qed.

Lemma run_calls_kept calls :
  forall st st' r,
    run_calls remote ChildrenPath decodeChildren decodeItem growcap calls st
      = Some (r, st') ->
    kept P st st'.
Proof.
  induction calls as [|[op q] rest IH]; intros st st' r H.
  - injection H as _ <-. apply kept_refl.
  - simpl in H. unfold mbind at 1, M_bind at 1 in H.
    step_go H. step_go H.
    eapply kept_trans; [eapply exec_kept; eassumption|].
    exact (IH _ _ _ H).
Qed.

End Kept.

(* ===================================================================== *)
(** ** Properties: the dirty flag *)
(* ===================================================================== *)

Section DirtyFlag.

Context {Auth : Type}.
Variable remote :
  list (Request Auth) -> Request Auth -> slice * option error.
Variable ChildrenPath : string -> string.
Variable decodeChildren : list byte -> list (option ItemJSON).
Variable decodeItem : list byte -> ItemJSON * option error.
Variable growcap : Z -> Z -> Z.

Implicit Type d : DriveItem Auth.
Implicit Type st : State Auth.
Implicit Type p : loc.

Lemma Write_item_sets_flag d B off d' r :
  Write_item growcap d B off = Some (d', r) -> hasChanges d' = true.
Proof.
  intros H. destruct (Write_item_shape _ _ _ _ _ _ H) as (s' & n & ->).
  reflexivity.
Qed.

Lemma Truncate_item_sets_flag d size d' r :
  Truncate_item d size = Some (d', r) -> hasChanges d' = true.
Proof.
  intros H. destruct (Truncate_item_shape _ _ _ _ H) as (s' & n & ->).
  reflexivity.
Qed.

(** [Write] inside the content, or at its end, returns. *)
Lemma Write_item_returns d s B off :
  data d = Some s ->
  GoInt.is_int off ->
  0 <= off <= Slice.len s ->
  exists d' r, Write_item growcap d B off = Some (d', r).
Proof.
  intros Hd Hi Hoff. unfold Write_item. rewrite Hd. simpl.
  rewrite (int_small off Hi). pose proof (len_le_cap s).
  case_match.
  - unfold Slice.upto. rewrite range_Some by lia. simpl. eauto.
  - unfold Slice.copy_at, Slice.from. rewrite range_Some by lia. simpl. eauto.
Qed.

(** [Truncate] to a size within the capacity returns. *)
Lemma Truncate_item_returns d s size :
  data d = Some s ->
  0 <= size <= Slice.cap s ->
  exists d' r, Truncate_item d size = Some (d', r).
Proof.
  intros Hd Hsize. unfold Truncate_item. rewrite Hd. simpl.
  unfold Slice.upto. rewrite range_Some by lia. simpl. eauto.
Qed.

(** C4: the flag [hasChanges] is false in every item that the decoder
    creates, and so in every child that a listing registers; it is true
    after every [Write] and every [Truncate] (which do return when the
    offset is within the content, and the size within the capacity);
    and no method call on any item ever clears it, [Upload] included:
    the decoder writes the exported fields only. *)
Theorem hasChanges_lifecycle :
  (forall j, hasChanges (Json.unmarshal_new (Auth := Auth) j) = false) /\
  (forall p d a st path body,
     heap st !! p = Some d ->
     IsDir d = true -> children d = None -> Path d = Some path ->
     remote (net st) (ReqGet (ChildrenPath path) a) = (body, None) ->
     Forall listed (decodeChildren (elems body)) ->
     exists m st',
       GetChildren remote ChildrenPath decodeChildren p a st
         = Some ((Some m, None), st') /\
       forall name q, m !! name = Some q ->
         exists c, heap st' !! q = Some c /\ hasChanges c = false) /\
  (forall p d s B off st,
     heap st !! p = Some d -> data d = Some s ->
     GoInt.is_int off -> 0 <= off <= Slice.len s ->
     exists r st' d',
       Write growcap p B off st = Some (r, st') /\
       heap st' !! p = Some d' /\ hasChanges d' = true) /\
  (forall p d s size st,
     heap st !! p = Some d -> data d = Some s ->
     0 <= size <= Slice.cap s ->
     exists r st' d',
       Truncate p size st = Some (r, st') /\
       heap st' !! p = Some d' /\ hasChanges d' = true) /\
  (forall op q st st' r,
     exec remote ChildrenPath decodeChildren decodeItem growcap op q st
       = Some (r, st') ->
     forall p d, heap st !! p = Some d -> hasChanges d = true ->
       exists d', heap st' !! p = Some d' /\ hasChanges d' = true).
Proof.
  split; [reflexivity|]. split; [|split; [|split]].
  - intros p d a st path body Hp Hdir Hnil Hpath Hrem Hwf.
    destruct (GetChildren_fetch remote ChildrenPath decodeChildren
                p d a st path body Hp Hdir Hnil Hpath Hrem Hwf)
      as (m & st' & Hrun & _ & _ & Hclean).
    exists m, st'. split; [exact Hrun|].
    intros name q Hq. exact (proj2 (Hclean name q Hq)).
  - intros p d s B off st Hp Hd Hi Hoff.
    destruct (Write_item_returns d s B off Hd Hi Hoff) as (d' & r & HW).
    exists r, (mkState (<[p := d']> (heap st)) (net st) (clock st)), d'.
    split; [|split].
    + unfold Write. run_go. rewrite Hp, HW. simpl. rewrite Hp. reflexivity.
    + simpl. apply lookup_insert_eq.
    + exact (Write_item_sets_flag _ _ _ _ _ HW).
  - intros p d s size st Hp Hd Hsize.
    destruct (Truncate_item_returns d s size Hd Hsize) as (d' & r & HT).
    exists r, (mkState (<[p := d']> (heap st)) (net st) (clock st)), d'.
    split; [|split].
    + unfold Truncate. run_go. rewrite Hp, HT. simpl. rewrite Hp.
      reflexivity.
    + simpl. apply lookup_insert_eq.
    + exact (Truncate_item_sets_flag _ _ _ _ HT).
  - intros op q st st' r H.
    exact (exec_kept remote ChildrenPath decodeChildren decodeItem growcap
             dirty dirty_sticky op q st st' r H).
Qed.

End DirtyFlag.

(* ===================================================================== *)
(** ** Properties: items made locally *)
(* ===================================================================== *)

Section LocalItems.

Context {Auth : Type}.
Variable remote :
  list (Request Auth) -> Request Auth -> slice * option error.
Variable ChildrenPath : string -> string.
Variable decodeChildren : list byte -> list (option ItemJSON).
Variable decodeItem : list byte -> ItemJSON * option error.
Variable growcap : Z -> Z -> Z.

Implicit Type st : State Auth.

(** [NewDriveItem] returns whenever the parent has a parent descriptor. *)
Lemma NewDriveItem_returns name mode_ parent par pp st :
  heap st !! parent = Some par ->
  Parent par = Some pp ->
  let d := mkItem (Auth := Auth) true None (Some Slice.nil_slice) false
             EmptyString name 0 (Some (clock st)) mode_
             (Some (mkParent (ID par) (ParentPath pp +:+ "/" +:+ Name par)
                             (Some parent)))
             (Some ∅) None None in
  let q := fresh (dom (heap st)) in
  NewDriveItem name mode_ parent st
    = Some (q, mkState (<[q := d]> (heap st)) (net st) (clock st)).
Proof.
  intros Hpar Hpp d q.
  unfold NewDriveItem, time_Now, alloc. run_go. rewrite Hpar. simpl.
  rewrite Hpp. reflexivity.
Qed.

(** C9: [NewDriveItem] gives the new item an empty, non-nil children
    map, so [GetChildren] on it returns that empty map at once, on the
    first call already, without sending a request; and since no method
    ever makes a children map nil again, this stays so after any sequence
    of method calls: the children of an item made locally are never
    fetched. *)
Theorem NewDriveItem_children_cached name mode_ parent par pp a st :
  heap st !! parent = Some par ->
  Parent par = Some pp ->
  exists q st' d,
    NewDriveItem name mode_ parent st = Some (q, st') /\
    heap st' !! q = Some d /\
    children d = Some ∅ /\
    net st' = net st /\
    GetChildren remote ChildrenPath decodeChildren q a st'
      = Some ((Some ∅, None), st') /\
    (forall calls st'',
       run_calls remote ChildrenPath decodeChildren decodeItem growcap
         calls st' = Some (tt, st'') ->
       exists m,
         GetChildren remote ChildrenPath decodeChildren q a st''
           = Some ((Some m, None), st'')).
Proof.
  intros Hpar Hpp.
  pose proof (NewDriveItem_returns name mode_ parent par pp st Hpar Hpp)
    as Hnew. simpl in Hnew.
  match type of Hnew with
  | _ = Some (?q0, mkState (<[_ := ?d0]> _) _ _) =>
      set (q := q0) in *; set (d := d0) in *
  end.
  set (st' := mkState (<[q := d]> (heap st)) (net st) (clock st)) in *.
  assert (Hq : heap st' !! q = Some d) by apply lookup_insert_eq.
  exists q, st', d. split; [exact Hnew|]. split; [exact Hq|].
  split; [reflexivity|]. split; [reflexivity|]. split.
  - apply (GetChildren_no_fetch remote ChildrenPath decodeChildren
             q d a st' Hq).
    right. discriminate.
  - intros calls st'' Hrun.
    destruct (run_calls_kept remote ChildrenPath decodeChildren decodeItem
                growcap has_children_map has_children_map_sticky
                calls st' st'' tt Hrun q d Hq)
      as (d'' & Hq'' & Hmap); [discriminate|].
    unfold has_children_map in Hmap.
    destruct (children d'') as [m|] eqn:Hm; [|congruence].
    exists m. rewrite <- Hm.
    apply (GetChildren_no_fetch remote ChildrenPath decodeChildren
             q d'' a st'' Hq'').
    right. congruence.
Qed.

End LocalItems.

(* ===================================================================== *)
(** ** Properties: the search for [\w+$] *)
(* ===================================================================== *)

Lemma upto_app (p rest : string) :
  Strings.upto (String.length p) (p +:+ rest) = p.
Proof.
  induction p as [|c p IH]; [destruct rest; reflexivity|].
  rewrite append_cons. simpl. rewrite IH. reflexivity.
Qed.

Lemma last_cons (c : ascii) (s : string) :
  Strings.last (String c s) =
    match s with EmptyString => Some c | _ => Strings.last s end.
Proof. destruct s; reflexivity. Qed.

Lemma last_snoc (q : string) (c : ascii) :
  Strings.last (q +:+ String c EmptyString) = Some c.
Proof.
  induction q as [|x q IH]; [reflexivity|].
  rewrite append_cons, last_cons, IH.
  destruct q; reflexivity.
Qed.

Lemma last_inv (s : string) (c : ascii) :
  Strings.last s = Some c ->
  exists q, s = q +:+ String c EmptyString /\
            Strings.upto (String.length s - 1) s = q.
Proof.
  induction s as [|x s IH]; [discriminate|].
  rewrite last_cons. destruct s as [|y s].
  - intros [= ->]. exists EmptyString. split; reflexivity.
  - intros H. destruct (IH H) as (q & Hq & Hup).
    exists (String x q). split.
    + rewrite append_cons, <- Hq. reflexivity.
    + simpl in *. rewrite Nat.sub_0_r in *. rewrite Hup. reflexivity.
Qed.

Lemma all_word_last (s : string) (c : ascii) :
  Regexp.all_word s = true -> Strings.last s = Some c ->
  Regexp.is_word c = true.
Proof.
  induction s as [|x s IH]; [discriminate|].
  simpl Regexp.all_word. rewrite last_cons. intros Hw.
  apply andb_prop in Hw as [Hx Hs].
  destruct s; [intros [= <-]; exact Hx|]. apply IH. exact Hs.
Qed.

(** A match starts where the text, cut there, is a prefix that does not
    end in a word character followed by a non-empty run of word characters
    up to the end. *)
Lemma find_from_Some (s : string) :
  forall i a b, Regexp.find_from i s = Some (a, b) ->
    exists pre suf,
      s = pre +:+ suf /\ a = (i + String.length pre)%nat /\
      b = (i + String.length s)%nat /\
      suf <> EmptyString /\ Regexp.all_word suf = true /\ ends_nonword pre.
Proof.
  induction s as [|c s IH]; intros i a b H; [discriminate|].
  cbn [Regexp.find_from] in H.
  destruct (Regexp.match_here (String c s)) eqn:Hm.
  - injection H as <- <-. exists EmptyString, (String c s).
    repeat split; [simpl; lia|discriminate|exact Hm].
  - destruct (IH _ _ _ H) as (pre & suf & -> & -> & -> & Hne & Hw & Hpre).
    exists (String c pre), suf. rewrite append_cons.
    repeat split; [simpl; lia|simpl; lia|exact Hne|exact Hw|].
    unfold ends_nonword in *. rewrite last_cons.
    destruct pre as [|x pre]; [|exact Hpre].
    rewrite append_nil in Hm. simpl in Hm. rewrite Hw, andb_true_r in Hm.
    exact Hm.
Qed.

(** There is a match exactly when the text ends in a word character. *)
Lemma find_from_is_Some (s : string) :
  forall i, ends_in_word s -> is_Some (Regexp.find_from i s).
Proof.
  induction s as [|c s IH]; intros i (x & Hl & Hx); [discriminate|].
  cbn [Regexp.find_from].
  destruct (Regexp.match_here (String c s)) eqn:Hm; [eexists; reflexivity|].
  rewrite last_cons in Hl. destruct s as [|y s].
  - injection Hl as ->. simpl in Hm. rewrite Hx in Hm. discriminate.
  - apply IH. exists x. split; assumption.
Qed.

Lemma find_from_None (s : string) :
  forall i, ~ ends_in_word s -> Regexp.find_from i s = None.
Proof.
  intros i Hn. destruct (Regexp.find_from i s) as [[a b]|] eqn:H; [|reflexivity].
  exfalso. apply Hn.
  destruct (find_from_Some s i a b H) as (pre & suf & -> & _ & _ & Hne & Hw & _).
  clear H Hn. induction pre as [|x pre IH].
  - rewrite append_nil. destruct (Strings.last suf) as [c|] eqn:Hl.
    + exists c. split; [exact Hl|]. exact (all_word_last suf c Hw Hl).
    + destruct suf as [|y suf]; [congruence|].
      exfalso. clear -Hl. revert y Hl.
      induction suf as [|z suf IHs]; intros y Hl; [discriminate|].
      rewrite last_cons in Hl. exact (IHs z Hl).
  - rewrite append_cons. destruct IH as (c & Hl & Hc).
    exists c. split; [|exact Hc]. rewrite last_cons.
    destruct (pre +:+ suf); [discriminate|exact Hl].
Qed.

(* ===================================================================== *)
(** ** Properties: [Mkdir] and [Rmdir] *)
(* ===================================================================== *)

Lemma length_snoc (q : string) (c : ascii) :
  String.length (q +:+ String c EmptyString) = S (String.length q).
Proof.
  induction q as [|x q IH]; [reflexivity|].
  rewrite append_cons. simpl. rewrite IH. reflexivity.
Qed.

Section FuseFsProps.

Context {Auth : Type}.
Variable remote :
  list (Request Auth) -> Request Auth -> slice * option error.
Variable ChildrenPath : string -> string.
Variable GetItem : string -> Auth -> M Auth (option loc * option error).
Variable marshalNewFolder : string -> list byte.

Implicit Type st : State Auth.
Implicit Type fs : FuseFs Auth.
Local Open Scope string_scope.

(** The path that [Mkdir] parses is the name with a slash in front and
    without its last character when that is a slash: one slash at most
    is removed. *)
Lemma Mkdir_path_spec name :
  (forall q, "/" +:+ name = q +:+ "/" -> Mkdir_path name = q) /\
  ((forall q, "/" +:+ name <> q +:+ "/") -> Mkdir_path name = "/" +:+ name).
Proof.
  unfold Mkdir_path. split.
  - intros q Hq. rewrite Hq, last_snoc.
    rewrite bool_decide_eq_true_2 by reflexivity.
    rewrite length_snoc. simpl. rewrite Nat.sub_0_r. apply upto_app.
  - intros Hn. case_bool_decide as Hl; [|reflexivity].
    destruct (last_inv _ _ Hl) as (q & Hq & _). exfalso. exact (Hn q Hq).
Qed.

(** The split that [Mkdir] computes, when the search has a match: the
    child is the run of word characters at the end of the path, the
    parent is what comes before it. *)
Lemma Mkdir_split_Some name :
  ends_in_word (Mkdir_path name) ->
  exists parent child,
    Mkdir_split name = Some (parent, child) /\
    Mkdir_path name = parent +:+ child /\
    child <> "" /\ Regexp.all_word child = true /\ ends_nonword parent.
Proof.
  intros Hw. unfold Mkdir_split, Regexp.FindStringIndex.
  destruct (find_from_is_Some _ 0%nat Hw) as [[a b] Hf]. rewrite Hf. simpl.
  destruct (find_from_Some _ _ _ _ Hf)
    as (pre & suf & Hs & -> & _ & Hne & Hall & Hpre).
  exists pre, suf. rewrite Hs. simpl. rewrite upto_app, from_app.
  repeat split; assumption.
Qed.

Lemma Mkdir_split_None name :
  ~ ends_in_word (Mkdir_path name) -> Mkdir_split name = None.
Proof.
  intros Hn. unfold Mkdir_split, Regexp.FindStringIndex.
  rewrite find_from_None by exact Hn. reflexivity.
Qed.

(** C10: let [path] be the name with a slash in front and without its
    last character when that is a slash (one trailing slash at most is
    removed).  [Mkdir] takes as the new leaf the run of word characters at
    the end of [path] and as the parent what precedes it, and posts the
    new folder to the parent; this needs [path] to end in a word
    character.  When it does not, the search for [\w+$] has no match,
    indexing its nil result panics, and [Mkdir] returns nothing. *)
Theorem Mkdir_defined_iff_word_end fs name mode_ st path :
  "/" +:+ name = path +:+ "/" \/
  (path = "/" +:+ name /\ forall q, "/" +:+ name <> q +:+ "/") ->
  (ends_in_word path ->
     exists parent child,
       path = parent +:+ child /\
       child <> "" /\ Regexp.all_word child = true /\ ends_nonword parent /\
       let req := ReqPost (ChildrenPath parent) (FsAuth fs)
                          (marshalNewFolder child) in
       Mkdir remote ChildrenPath marshalNewFolder fs name mode_ st =
         Some (match snd (remote (net st) req) with
               | Some _ => EREMOTEIO
               | None => OK
               end, sent req st)) /\
  (~ ends_in_word path ->
     Regexp.FindStringIndex path = None /\
     Mkdir remote ChildrenPath marshalNewFolder fs name mode_ st = None).
Proof.
  intros Hpath.
  assert (E : Mkdir_path name = path).
  { destruct (Mkdir_path_spec name) as [H1 H2].
    destruct Hpath as [H|[-> H]]; [exact (H1 _ H)|exact (H2 H)]. }
  rewrite <- E. clear Hpath E path. split.
  - intros Hw.
    destruct (Mkdir_split_Some name Hw)
      as (parent & child & Hs & Hp & Hne & Hall & Hpre).
    exists parent, child. repeat split; try assumption.
    unfold Mkdir. run_go. rewrite Hs. simpl. unfold Post, http.
    destruct (remote (net st) _) as [resp [e|]]; reflexivity.
  - intros Hn. split.
    + apply find_from_None. exact Hn.
    + unfold Mkdir. run_go. rewrite (Mkdir_split_None name Hn). reflexivity.
Qed.

(** C7 (as the code has it): when the item of the path cannot be
    resolved, [Rmdir] returns the remote-I/O status [EREMOTEIO], and
    sends no request of its own. *)
Theorem Rmdir_unresolved_is_remote_io fs name st it e st' :
  GetItem ("/" +:+ name) (FsAuth fs) st = Some ((it, Some e), st') ->
  Rmdir remote GetItem fs name st = Some (EREMOTEIO, st').
Proof.
  intros H. unfold Rmdir. run_go. rewrite H. reflexivity.
Qed.

(** The other outcomes of [Rmdir]: the status follows the answer to the
    delete request. *)
Lemma Rmdir_resolved fs name st p d st' :
  GetItem ("/" +:+ name) (FsAuth fs) st = Some ((Some p, None), st') ->
  heap st' !! p = Some d ->
  let req := ReqDelete ("/me/drive/items/" +:+ ID d) (FsAuth fs) in
  Rmdir remote GetItem fs name st =
    Some (match snd (remote (net st') req) with
          | Some _ => EREMOTEIO
          | None => OK
          end, sent req st').
Proof.
  intros H Hp req. unfold Rmdir. run_go. rewrite H. simpl. rewrite Hp.
  unfold Delete, http. run_go. fold req.
  destruct (remote (net st') req) as [resp [e|]]; reflexivity.
Qed.

End FuseFsProps.

(* ===================================================================== *)
(** ** Worked examples *)
(* ===================================================================== *)

(** Listing the root once builds the tree of the examples. *)
Example GetChildren_root_listing :
  GetChildren Ex.online Ex.children_url Ex.listing 1%positive tt Ex.root_world
  = Some ((Some Ex.root_children, None), Ex.tree_world).
Proof. vm_compute. reflexivity. Qed.

(** Asking again for the children of the listed root sends nothing, even
    with the service down. *)
Lemma GetChildren_cached_witness :
  GetChildren Ex.offline Ex.children_url Ex.listing 1%positive tt Ex.tree_world
  = Some ((Some Ex.root_children, None), Ex.tree_world).
Proof.
  refine (proj1 (GetChildren_cached Ex.offline Ex.children_url Ex.listing
                   1%positive Ex.root_listed tt Ex.tree_world _ _)).
  - reflexivity.
  - right. discriminate.
Defined.

(** The first listing of the root times out; the root is as before, and
    the second call sends the request again and fills the map. *)
Lemma GetChildren_failure_leaves_retry_witness :
  let req := ReqGet (Ex.children_url "/") tt in
  GetChildren Ex.flaky Ex.children_url Ex.listing 1%positive tt Ex.root_world
    = Some ((None, Some "timeout"%string), sent req Ex.root_world) /\
  heap (sent req Ex.root_world) !! 1%positive = Some Ex.root /\
  exists m st'',
    GetChildren Ex.flaky Ex.children_url Ex.listing 1%positive tt
      (sent req Ex.root_world) = Some ((Some m, None), st'') /\
    net st'' = [req; req].
Proof.
  intros req.
  destruct (GetChildren_failure_leaves_retry Ex.flaky Ex.children_url
              Ex.listing 1%positive Ex.root tt Ex.root_world "/"
              Slice.nil_slice "timeout" eq_refl eq_refl eq_refl eq_refl
              eq_refl) as (H1 & H2 & _ & H4).
  split; [exact H1|]. split; [exact H2|].
  destruct (H4 (Slice.of_bytes [x7b; x7d]) eq_refl) as (m & st'' & Hr & Hn & _).
  - repeat constructor; eexists _, _; split; reflexivity.
  - exists m, st''. split; [exact Hr|exact Hn].
Defined.

(** A folder made locally below the root is never listed, with the
    service down and after a write and a listing attempt elsewhere. *)
Lemma NewDriveItem_children_cached_witness :
  exists q st' d,
    NewDriveItem "new" 16877 1%positive Ex.root_world = Some (q, st') /\
    heap st' !! q = Some d /\
    children d = Some ∅ /\
    net st' = net Ex.root_world /\
    GetChildren Ex.offline Ex.children_url Ex.listing q tt st'
      = Some ((Some ∅, None), st') /\
    (forall calls st'',
       run_calls Ex.offline Ex.children_url Ex.listing Ex.uploaded Ex.double
         calls st' = Some (tt, st'') ->
       exists m,
         GetChildren Ex.offline Ex.children_url Ex.listing q tt st''
           = Some ((Some m, None), st'')).
Proof.
  exact (NewDriveItem_children_cached Ex.offline Ex.children_url Ex.listing
           Ex.uploaded Ex.double "new" 16877 1%positive Ex.root
           (mkParent "" "" None) tt Ex.root_world eq_refl eq_refl).
Defined.

(** The listed root has three children, two of them folders: 4 links. *)
Lemma NLink_spec_witness : NLink Ex.tree Ex.root_listed = Some 4.
Proof.
  destruct (NLink_spec Ex.tree Ex.root_listed) as (_ & _ & H).
  rewrite (H eq_refl Ex.root_children eq_refl).
  - vm_compute. reflexivity.
  - apply (bool_decide_unpack
             (map_Forall (fun _ q => is_Some (Ex.tree !! q)) Ex.root_children)).
    vm_compute. exact I.
  - vm_compute. reflexivity.
Defined.

(** A file and a folder that was never listed. *)
Example NLink_file_and_unlisted :
  NLink Ex.tree Ex.notes_item = Some 1 /\ NLink Ex.tree Ex.root = Some 2.
Proof. split; reflexivity. Qed.

(** Writing "LO" into the blank file sets the flag, and the upload that
    follows leaves it set. *)
Lemma hasChanges_lifecycle_witness :
  exists r st1 d1 st2 d2,
    Write Ex.double 1%positive Ex.LO 0 Ex.blank_world = Some (r, st1) /\
    heap st1 !! 1%positive = Some d1 /\ hasChanges d1 = true /\
    exec Ex.online Ex.children_url Ex.listing Ex.uploaded Ex.double
      (OpUpload tt) 1%positive st1 = Some (tt, st2) /\
    heap st2 !! 1%positive = Some d2 /\ hasChanges d2 = true.
Proof.
  destruct (hasChanges_lifecycle Ex.online Ex.children_url Ex.listing
              Ex.uploaded Ex.double) as (_ & _ & HW & _ & Hkeep).
  destruct (HW 1%positive Ex.blank Slice.nil_slice Ex.LO 0 Ex.blank_world
              eq_refl eq_refl)
    as (r & st1 & d1 & Hrun & Hd1 & Hf1).
  - unfold GoInt.is_int, GoInt.two63. lia.
  - vm_compute. split; discriminate.
  - assert (Hup : exists st2,
               exec Ex.online Ex.children_url Ex.listing Ex.uploaded Ex.double
                 (OpUpload tt) 1%positive st1 = Some (tt, st2)).
    { assert (Hst : Some (r, st1) = Write Ex.double 1%positive Ex.LO 0
                                      Ex.blank_world)
        by (symmetry; exact Hrun).
      vm_compute in Hst. injection Hst as _ ->. eexists. vm_compute.
      reflexivity. }
    destruct Hup as (st2 & Hup).
    destruct (Hkeep _ _ _ _ _ Hup 1%positive d1 Hd1 Hf1) as (d2 & Hd2 & Hf2).
    exists r, st1, d1, st2, d2. repeat split; assumption.
Defined.

(** The name "docs/new/" loses its trailing slash: the folder made is
    the run of word characters at the end of "/docs/new".  The name
    "docs/new//" loses one slash only, and the name "docs/a-b-" none:
    their paths end in a slash and in a hyphen, and [Mkdir] panics. *)
Lemma Mkdir_defined_iff_word_end_witness :
  (exists parent child,
     "/docs/new"%string = (parent +:+ child)%string /\
     child <> ""%string /\ Regexp.all_word child = true /\
     ends_nonword parent /\
     Mkdir Ex.online Ex.children_url Ex.new_folder_body (mkFuseFs tt)
       "docs/new/" 493 Ex.root_world
     = Some (OK, sent (ReqPost (Ex.children_url parent) tt
                               (Ex.new_folder_body child)) Ex.root_world)) /\
  Mkdir Ex.online Ex.children_url Ex.new_folder_body (mkFuseFs tt)
    "docs/new//" 493 Ex.root_world = None /\
  Mkdir Ex.online Ex.children_url Ex.new_folder_body (mkFuseFs tt)
    "docs/a-b-" 493 Ex.root_world = None.
Proof.
  split; [|split].
  - refine (proj1 (Mkdir_defined_iff_word_end Ex.online Ex.children_url
                     Ex.new_folder_body (mkFuseFs tt) "docs/new/" 493
                     Ex.root_world "/docs/new" _) _).
    + left. reflexivity.
    + exists "w"%char. split; reflexivity.
  - refine (proj2 (proj2 (Mkdir_defined_iff_word_end Ex.online
                            Ex.children_url Ex.new_folder_body (mkFuseFs tt)
                            "docs/new//" 493 Ex.root_world "/docs/new/" _)
                     _)).
    + left. reflexivity.
    + intros (c & Hl & Hc). vm_compute in Hl. injection Hl as <-.
      vm_compute in Hc. discriminate Hc.
  - refine (proj2 (proj2 (Mkdir_defined_iff_word_end Ex.online
                            Ex.children_url Ex.new_folder_body (mkFuseFs tt)
                            "docs/a-b-" 493 Ex.root_world "/docs/a-b-" _)
                     _)).
    + right. split; [reflexivity|].
      intros q H. apply (f_equal Strings.last) in H.
      rewrite last_snoc in H. vm_compute in H. discriminate H.
    + intros (c & Hl & Hc). vm_compute in Hl. injection Hl as <-.
      vm_compute in Hc. discriminate Hc.
Defined.

(** One trailing slash is removed, a second one is not. *)
Example Mkdir_trailing_slashes :
  Mkdir_split "docs/new/" = Some ("/docs/", "new")%string /\
  Mkdir_split "docs/new//" = None /\
  Mkdir_split "" = None.
Proof. repeat split. Qed.

(** C7 as it is stated fails: with a resolver that finds nothing, [Rmdir]
    of "missing" returns [EREMOTEIO] (errno 121), not [ENOENT] (errno 2). *)
Lemma Rmdir_unresolved_not_ENOENT :
  Ex.unresolved "/missing" tt Ex.root_world
    = Some ((None, Some "itemNotFound"%string), Ex.root_world) /\
  Rmdir Ex.online Ex.unresolved (mkFuseFs tt) "missing" Ex.root_world
    = Some (EREMOTEIO, Ex.root_world) /\
  Rmdir Ex.online Ex.unresolved (mkFuseFs tt) "missing" Ex.root_world
    <> Some (ENOENT, Ex.root_world) /\
  Status_code EREMOTEIO <> Status_code ENOENT.
Proof. repeat split; discriminate. Qed.

Lemma Rmdir_unresolved_is_remote_io_witness :
  Rmdir Ex.offline Ex.unresolved (mkFuseFs tt) "gone" Ex.tree_world
  = Some (EREMOTEIO, Ex.tree_world).
Proof.
  exact (Rmdir_unresolved_is_remote_io Ex.offline Ex.unresolved (mkFuseFs tt)
           "gone" Ex.tree_world None "itemNotFound" Ex.tree_world eq_refl).
Defined.


(* ===================================================================== *)
(** ** More on the buffer: [Read], [Write], [Truncate] *)
(* ===================================================================== *)

Section Buffer.

Context {Auth : Type}.
Variable growcap : Z -> Z -> Z.
Implicit Type d : DriveItem Auth.

(** What a write that starts inside the content, or at its end, stores:
    the window from the offset on is replaced by the bytes written, and
    the content grows when the window runs past its end. *)
Lemma Write_item_within d s B off :
  data d = Some s ->
  Size d = Slice.len s ->
  0 <= off <= Slice.len s ->
  Slice.len s + Z.of_nat (length B) < GoInt.two63 ->
  exists d' s',
    Write_item growcap d B off
      = Some (d', (GoInt.uint32 (Z.of_nat (length B)), OK)) /\
    d' = set_hasChanges true
           (set_Size (GoInt.uint64 (Slice.len s')) (set_data (Some s') d)) /\
    elems s' = take (Z.to_nat off) (elems s) ++ B
                 ++ drop (Z.to_nat off + length B) (elems s).
Proof.
  intros Hd Hsz Hoff Hsum. pose proof (len_nonneg s) as H0.
  pose proof (len_le_cap s) as Hcap.
  assert (Hi : forall z, - 1 <= z <= Slice.len s + Z.of_nat (length B) ->
                         GoInt.int z = z).
  { intros z Hz. apply int_small. unfold GoInt.is_int, GoInt.two63 in *. lia. }
  unfold Write_item. rewrite Hd. simpl.
  rewrite Hsz, (Hi off), (Hi (Slice.len s)), (Hi (Slice.len s - 1)),
    (Hi (off + Z.of_nat (length B))) by lia.
  destruct (Z.gtb_spec (off + Z.of_nat (length B)) (Slice.len s - 1)) as [Hgt|Hle].
  - unfold Slice.upto. rewrite range_Some by lia. simpl.
    eexists _, _. split; [reflexivity|]. split; [reflexivity|].
    rewrite append_elems. simpl. rewrite drop_0, Z.sub_0_r.
    unfold Slice.backing, Slice.len in *.
    rewrite take_app_le by lia.
    rewrite (drop_ge (elems s)) by lia. rewrite app_nil_r. reflexivity.
  - unfold Slice.copy_at, Slice.from. rewrite range_Some by lia. simpl.
    eexists _, _. split; [reflexivity|]. split; [reflexivity|]. simpl.
    unfold Slice.backing, Slice.len in *.
    rewrite length_take, length_drop, length_app.
    rewrite Nat.min_r by lia.
    rewrite firstn_all. reflexivity.
Qed.

(** X1: inside the content and at its end, [Read] returns with an OK status
    the bytes of the content from the offset on, as many as the buffer
    holds or as are left, whichever is less. *)
Theorem Read_window d s buf off :
  data d = Some s ->
  0 <= off <= Slice.len s ->
  off + Z.of_nat (length buf) < GoInt.two63 ->
  exists bytes,
    Read d buf off = Some (bytes, OK) /\
    Z.of_nat (length bytes)
      = Z.min (Z.of_nat (length buf)) (Slice.len s - off) /\
    forall i, (i < length bytes)%nat ->
      bytes !! i = elems s !! (Z.to_nat off + i)%nat.
Proof.
  intros Hd Hoff Hsum. eexists. split; [|split].
  - exact (Read_within d s buf off Hd Hoff Hsum).
  - unfold Slice.len in *. rewrite length_take, length_drop. lia.
  - intros i Hi. rewrite length_take in Hi.
    rewrite lookup_take_lt by lia. apply lookup_drop.
Qed.

(** X2: on an item whose [Size] is the length of its buffer, a write
    inside the content or at its end is seen at once: reading as many
    bytes at the same offset returns the bytes written. *)
Theorem Write_then_Read d s B off buf :
  data d = Some s ->
  Size d = Slice.len s ->
  0 <= off <= Slice.len s ->
  Slice.len s + Z.of_nat (length B) < GoInt.two63 ->
  length buf = length B ->
  exists d' r,
    Write_item growcap d B off = Some (d', r) /\
    Read d' buf off = Some (B, OK).
Proof.
  intros Hd Hsz Hoff Hsum Hbuf.
  destruct (Write_item_within d s B off Hd Hsz Hoff Hsum)
    as (d' & s' & HW & -> & He).
  eexists _, _. split; [exact HW|].
  pose proof (len_nonneg s) as H0. unfold Slice.len in *.
  assert (Hlen : length (take (Z.to_nat off) (elems s)) = Z.to_nat off)
    by (rewrite length_take; lia).
  erewrite Read_within; [|reflexivity| |].
  - rewrite He, Hbuf. f_equal. f_equal.
    rewrite drop_app_length' by (symmetry; exact Hlen).
    rewrite take_app_length. reflexivity.
  - unfold Slice.len. rewrite He, !length_app, Hlen. lia.
  - lia.
Qed.

(** X3: on an item whose [Size] is the length of its buffer, a write
    whose window lies inside the content replaces the window only: the
    length and the size stay, the bytes before and after the window are
    the old ones, and the item is marked as changed. *)
Theorem Write_inside_overwrites d s B off :
  data d = Some s ->
  Size d = Slice.len s ->
  0 <= off ->
  off + Z.of_nat (length B) <= Slice.len s ->
  Slice.len s + Z.of_nat (length B) < GoInt.two63 ->
  exists d' s',
    Write_item growcap d B off
      = Some (d', (GoInt.uint32 (Z.of_nat (length B)), OK)) /\
    data d' = Some s' /\
    length (elems s') = length (elems s) /\
    Size d' = Size d /\ hasChanges d' = true /\
    (forall i, (i < Z.to_nat off)%nat -> elems s' !! i = elems s !! i) /\
    (forall i, (i < length B)%nat ->
       elems s' !! (Z.to_nat off + i)%nat = B !! i) /\
    (forall i, (Z.to_nat off + length B <= i)%nat ->
       elems s' !! i = elems s !! i).
Proof.
  intros Hd Hsz Hoff Hend Hsum.
  destruct (Write_item_within d s B off Hd Hsz ltac:(lia) Hsum)
    as (d' & s' & HW & -> & He).
  unfold Slice.len in *.
  assert (Hlt : length (take (Z.to_nat off) (elems s)) = Z.to_nat off)
    by (rewrite length_take; lia).
  assert (Hlen : length (elems s') = length (elems s)).
  { rewrite He, !length_app, Hlt, length_drop. lia. }
  eexists _, s'. split; [exact HW|]. split; [reflexivity|].
  split; [exact Hlen|]. split; [|split; [reflexivity|split; [|split]]].
  - simpl. rewrite Hsz. unfold Slice.len. rewrite Hlen.
    apply uint64_small. unfold GoInt.is_uint64, GoInt.two64, GoInt.two63 in *.
    lia.
  - intros i Hi. rewrite He, lookup_app_l by lia.
    apply lookup_take_lt. lia.
  - intros i Hi. rewrite He, lookup_app_r by lia.
    rewrite Hlt. replace (Z.to_nat off + i - Z.to_nat off)%nat with i by lia.
    apply lookup_app_l. exact Hi.
  - intros i Hi. rewrite He, lookup_app_r by lia.
    rewrite Hlt, lookup_app_r by lia. rewrite lookup_drop. f_equal. lia.
Qed.

End Buffer.

Section TruncateProps.

Context {Auth : Type}.
Implicit Type d : DriveItem Auth.

(** What [Truncate] stores for a size within the capacity: the window on
    the backing array is moved, the array itself is not written. *)
Lemma Truncate_item_within d s size :
  data d = Some s ->
  0 <= size <= Slice.cap s ->
  Truncate_item d size =
    Some (set_hasChanges true
            (set_Size size
               (set_data (Some (mkSlice
                                  (take (Z.to_nat size) (Slice.backing s))
                                  (drop (Z.to_nat size) (Slice.backing s))))
                         d)),
          OK).
Proof.
  intros Hd Hsize. unfold Truncate_item. rewrite Hd. simpl.
  unfold Slice.upto. rewrite range_Some by lia. simpl.
  rewrite drop_0, Z.sub_0_r. reflexivity.
Qed.

(** X4: truncating to a size within the content keeps exactly the first
    [size] bytes, sets the size to [size] and marks the item as changed. *)
Theorem Truncate_shrinks d s size :
  data d = Some s ->
  0 <= size <= Slice.len s ->
  exists d' s',
    Truncate_item d size = Some (d', OK) /\
    data d' = Some s' /\
    elems s' = take (Z.to_nat size) (elems s) /\
    Slice.len s' = size /\
    Size d' = size /\ hasChanges d' = true.
Proof.
  intros Hd Hsize. pose proof (len_le_cap s).
  eexists _, _. split; [apply (Truncate_item_within d s size Hd); lia|].
  split; [reflexivity|]. unfold Slice.len, Slice.backing in *. simpl.
  rewrite take_app_le by lia.
  split; [reflexivity|]. split; [|split; reflexivity].
  rewrite length_take. lia.
Qed.

(** X5: [Truncate] returns exactly for the sizes up to the capacity of the
    buffer; a larger size (growing the file beyond its backing array, in
    particular growing a new, empty file at all) panics. *)
Theorem Truncate_defined_iff d s size :
  data d = Some s ->
  (is_Some (Truncate_item d size) <-> 0 <= size <= Slice.cap s).
Proof.
  intros Hd. split.
  - intros [r Hr]. unfold Truncate_item in Hr. rewrite Hd in Hr. simpl in Hr.
    unfold Slice.upto in Hr.
    destruct (Z.le_gt_cases 0 size); [destruct (Z.le_gt_cases size (Slice.cap s))|];
      [lia|rewrite range_None in Hr by lia; discriminate
          |rewrite range_None in Hr by lia; discriminate].
  - intros Hsize. rewrite (Truncate_item_within d s size Hd Hsize).
    eexists. reflexivity.
Qed.

(** X6: truncation erases nothing.  After cutting the content down to
    [k] bytes, truncating to the old length returns, and brings the old
    content back, the bytes that were cut off included. *)
Theorem Truncate_restores d s k :
  data d = Some s ->
  0 <= k <= Slice.len s ->
  exists d1 d2 s2,
    Truncate_item d k = Some (d1, OK) /\
    Truncate_item d1 (Slice.len s) = Some (d2, OK) /\
    data d2 = Some s2 /\ elems s2 = elems s.
Proof.
  intros Hd Hk. pose proof (len_le_cap s) as Hcap.
  pose proof (Truncate_item_within d s k Hd ltac:(lia)) as H1.
  set (s1 := mkSlice (take (Z.to_nat k) (Slice.backing s))
                     (drop (Z.to_nat k) (Slice.backing s))) in *.
  assert (Hb : Slice.backing s1 = Slice.backing s)
    by apply take_drop.
  assert (Hc : Slice.cap s1 = Slice.cap s).
  { unfold Slice.cap. rewrite <- !length_app.
    change (elems s1 ++ spare s1) with (Slice.backing s1).
    rewrite Hb. reflexivity. }
  pose proof (Truncate_item_within
                (set_hasChanges true (set_Size k (set_data (Some s1) d)))
                s1 (Slice.len s) eq_refl ltac:(rewrite Hc; lia)) as H2.
  eexists _, _, _. split; [exact H1|]. split; [exact H2|].
  split; [reflexivity|].
  simpl. rewrite Hb. unfold Slice.backing, Slice.len.
  rewrite Nat2Z.id. apply take_app_length.
Qed.

End TruncateProps.

(** "HELLOWORLD" at offset 3, five bytes at most: "LOWOR". *)
Lemma Read_window_witness :
  exists bytes,
    Read (Ex.file Ex.HELLOWORLD) [x00; x00; x00; x00; x00] 3
      = Some (bytes, OK) /\
    Z.of_nat (length bytes) = 5.
Proof.
  destruct (Read_window (Ex.file Ex.HELLOWORLD) (Slice.of_bytes Ex.HELLOWORLD)
              [x00; x00; x00; x00; x00] 3 eq_refl)
    as (bytes & Hr & Hl & _).
  - vm_compute. split; discriminate.
  - vm_compute. reflexivity.
  - exists bytes. split; [exact Hr|]. rewrite Hl. reflexivity.
Defined.

(** Writing "LO" at offset 3 of "HELLO" and reading two bytes there. *)
Lemma Write_then_Read_witness :
  exists d' r,
    Write_item Ex.double (Ex.file Ex.HELLO) Ex.LO 3 = Some (d', r) /\
    Read d' [x00; x00] 3 = Some (Ex.LO, OK).
Proof.
  apply (Write_then_Read Ex.double (Ex.file Ex.HELLO)
           (Slice.of_bytes Ex.HELLO) Ex.LO 3 [x00; x00] eq_refl eq_refl).
  - vm_compute. split; discriminate.
  - vm_compute. reflexivity.
  - reflexivity.
Defined.

(** Writing "LO" over the bytes 1 and 2 of "HELLOWORLD". *)
Lemma Write_inside_overwrites_witness :
  exists d' s',
    Write_item Ex.double (Ex.file Ex.HELLOWORLD) Ex.LO 1
      = Some (d', (GoInt.uint32 2, OK)) /\
    data d' = Some s' /\ length (elems s') = 10%nat /\ Size d' = 10.
Proof.
  destruct (Write_inside_overwrites Ex.double (Ex.file Ex.HELLOWORLD)
              (Slice.of_bytes Ex.HELLOWORLD) Ex.LO 1 eq_refl eq_refl)
    as (d' & s' & HW & Hd' & Hl & Hs & _).
  - lia.
  - vm_compute. discriminate.
  - vm_compute. reflexivity.
  - exists d', s'. repeat split; assumption.
Defined.

(** "HELLOWORLD" truncated to 5 bytes is "HELLO", of size 5. *)
Lemma Truncate_shrinks_witness :
  exists d' s',
    Truncate_item (Ex.file Ex.HELLOWORLD) 5 = Some (d', OK) /\
    data d' = Some s' /\ elems s' = Ex.HELLO /\ Size d' = 5.
Proof.
  destruct (Truncate_shrinks (Ex.file Ex.HELLOWORLD)
              (Slice.of_bytes Ex.HELLOWORLD) 5 eq_refl)
    as (d' & s' & HT & Hd' & He & _ & Hs & _).
  - vm_compute. split; discriminate.
  - exists d', s'. repeat split; assumption.
Defined.

(** A new, empty file cannot be grown by [Truncate]. *)
Lemma Truncate_defined_iff_witness :
  ~ is_Some (Truncate_item Ex.blank 1).
Proof.
  intros H.
  apply (Truncate_defined_iff Ex.blank Slice.nil_slice 1 eq_refl) in H.
  vm_compute in H. destruct H as [_ H]. apply H. reflexivity.
Defined.

(** "HELLOWORLD" cut to nothing and truncated to 10 bytes again. *)
Lemma Truncate_restores_witness :
  exists d1 d2 s2,
    Truncate_item (Ex.file Ex.HELLOWORLD) 0 = Some (d1, OK) /\
    Truncate_item d1 10 = Some (d2, OK) /\
    data d2 = Some s2 /\ elems s2 = Ex.HELLOWORLD.
Proof.
  apply (Truncate_restores (Ex.file Ex.HELLOWORLD)
           (Slice.of_bytes Ex.HELLOWORLD) 0 eq_refl).
  vm_compute. split; discriminate.
Defined.

(* ===================================================================== *)
(** ** More on the content: [FetchContent] and [Upload] *)
(* ===================================================================== *)

Section Content.

Context {Auth : Type}.
Variable remote :
  list (Request Auth) -> Request Auth -> slice * option error.
Variable decodeItem : list byte -> ItemJSON * option error.
Variable growcap : Z -> Z -> Z.

Implicit Type d : DriveItem Auth.
Implicit Type st : State Auth.
Implicit Type p : loc.

Local Open Scope string_scope.

(** [Write] through a pointer, inside the content or at its end *)
Lemma Write_within p d s B off st :
  heap st !! p = Some d ->
  data d = Some s ->
  Size d = Slice.len s ->
  0 <= off <= Slice.len s ->
  Slice.len s + Z.of_nat (length B) < GoInt.two63 ->
  exists s',
    let d' := set_hasChanges true
                (set_Size (GoInt.uint64 (Slice.len s'))
                   (set_data (Some s') d)) in
    Write growcap p B off st
      = Some ((GoInt.uint32 (Z.of_nat (length B)), OK),
              mkState (<[p := d']> (heap st)) (net st) (clock st)) /\
    elems s' = (take (Z.to_nat off) (elems s) ++ B
                  ++ drop (Z.to_nat off + length B) (elems s))%list.
Proof.
  intros Hp Hd Hsz Hoff Hsum.
  destruct (Write_item_within growcap d s B off Hd Hsz Hoff Hsum)
    as (d' & s' & HW & -> & He).
  exists s'. split; [|exact He].
  unfold Write. run_go. rewrite Hp, HW. simpl. rewrite Hp. reflexivity.
Qed.

(** X7: [FetchContent] takes no notice of local changes.  After a write,
    a successful fetch replaces the buffer by the bytes of the service, so
    the bytes written are gone, while the item stays marked as changed
    and keeps the size the write gave it. *)
Theorem FetchContent_discards_writes p d s B off a st body :
  heap st !! p = Some d ->
  data d = Some s ->
  Size d = Slice.len s ->
  0 <= off <= Slice.len s ->
  Slice.len s + Z.of_nat (length B) < GoInt.two63 ->
  remote (net st) (ReqGet ("/me/drive/items/" +:+ ID d +:+ "/content") a)
    = (body, None) ->
  exists r st1 st2 d2,
    Write growcap p B off st = Some (r, st1) /\
    FetchContent remote p a st1 = Some (None, st2) /\
    heap st2 !! p = Some d2 /\
    data d2 = Some body /\
    hasChanges d2 = true /\
    Size d2 = Z.max (Slice.len s) (off + Z.of_nat (length B)) /\
    net st2 = (net st ++ [ReqGet ("/me/drive/items/" +:+ ID d +:+ "/content") a])%list.
Proof.
  intros Hp Hd Hsz Hoff Hsum Hrem.
  destruct (Write_within p d s B off st Hp Hd Hsz Hoff Hsum) as (s' & HW & He).
  simpl in HW.
  eexists _, _, _, _. split; [exact HW|]. split; [|split; [|split; [|split; [|split]]]].
  - unfold FetchContent. run_go. rewrite lookup_insert_eq. simpl.
    unfold Get, http. simpl. rewrite Hrem. simpl.
    rewrite lookup_insert_eq. reflexivity.
  - simpl. apply lookup_insert_eq.
  - reflexivity.
  - reflexivity.
  - simpl. unfold Slice.len in *. rewrite He, !length_app, length_take, length_drop.
    rewrite uint64_small;
      [lia|unfold GoInt.is_uint64, GoInt.two64, GoInt.two63 in *; lia].
  - reflexivity.
Qed.

(** X8: a failed [FetchContent] returns the error of the request and
    changes no item: the buffer it had is still what [Read] serves. *)
Theorem FetchContent_failure_keeps_buffer p d a st body e :
  heap st !! p = Some d ->
  remote (net st) (ReqGet ("/me/drive/items/" +:+ ID d +:+ "/content") a)
    = (body, Some e) ->
  exists st',
    FetchContent remote p a st = Some (Some e, st') /\
    heap st' = heap st /\
    net st' = (net st ++ [ReqGet ("/me/drive/items/" +:+ ID d +:+ "/content")
                                 a])%list /\
    forall buf off, (d' ← heap st' !! p; Read d' buf off) = Read d buf off.
Proof.
  intros Hp Hrem. eexists. split; [|split; [|split]].
  - unfold FetchContent. run_go. rewrite Hp. unfold Get, http.
    rewrite Hrem. reflexivity.
  - reflexivity.
  - reflexivity.
  - intros buf off. simpl. rewrite Hp. reflexivity.
Qed.

(** X9: a failed [Upload] of an item that has an identifier returns the
    error and changes no item; the buffer is kept, so the next [Upload]
    sends the same request, with the same bytes, again. *)
Theorem Upload_failure_retry p d s a st resp e :
  heap st !! p = Some d ->
  data d = Some s ->
  ID d <> "" ->
  let req := ReqPut ("/me/drive/items/" +:+ ID d +:+ "/content") a (elems s) in
  remote (net st) req = (resp, Some e) ->
  Upload remote decodeItem p a st = Some (Some e, sent req st) /\
  heap (sent req st) = heap st /\
  exists r st'',
    Upload remote decodeItem p a (sent req st) = Some (r, st'') /\
    net st'' = (net st ++ [req; req])%list.
Proof.
  intros Hp Hd Hid req Hrem.
  assert (Hne : String.eqb (ID d) "" = false)
    by (apply String.eqb_neq; exact Hid).
  assert (Hrun : forall st0, heap st0 !! p = Some d ->
            exists r st1, Upload remote decodeItem p a st0 = Some (r, st1) /\
                          net st1 = (net st0 ++ [req])%list /\
                          (snd (remote (net st0) req) <> None ->
                           r = snd (remote (net st0) req) /\ st1 = sent req st0)).
  { intros st0 Hp0. unfold Upload. run_go. rewrite Hp0, Hne. simpl.
    rewrite Hd. simpl. unfold Put, http. fold req.
    destruct (remote (net st0) req) as [resp0 [e0|]]; simpl.
    - eexists _, _. split; [reflexivity|]. split; [reflexivity|].
      intros _. split; reflexivity.
    - destruct (decodeItem (elems resp0)) as [j jerr]. simpl. rewrite Hp0.
      eexists _, _. split; [reflexivity|]. split; [reflexivity|].
      intros H. congruence. }
  destruct (Hrun st Hp) as (r & st1 & H1 & _ & H1').
  rewrite Hrem in H1'. simpl in H1'.
  destruct (H1' ltac:(discriminate)) as [-> ->].
  split; [exact H1|]. split; [reflexivity|].
  destruct (Hrun (sent req st) Hp) as (r2 & st2 & H2 & Hn2 & _).
  exists r2, st2. split; [exact H2|].
  rewrite Hn2. simpl. rewrite <- app_assoc. reflexivity.
Qed.

(** X10: an item with no identifier is uploaded by the identifier of its
    parent and its name.  When the answer decodes to a non-empty
    identifier, the item takes it and keeps its buffer and its flag, and
    the next [Upload] goes to the item's own identifier, with the same
    bytes. *)
Theorem Upload_new_then_by_ID p d s par a st resp j jerr newid :
  heap st !! p = Some d ->
  data d = Some s ->
  ID d = "" ->
  Parent d = Some par ->
  let req1 := ReqPut ("/me/drive/items/" +:+ ParentID par +:+ ":/"
                        +:+ Name d +:+ ":/content") a (elems s) in
  let req2 := ReqPut ("/me/drive/items/" +:+ newid +:+ "/content") a
                     (elems s) in
  remote (net st) req1 = (resp, None) ->
  decodeItem (elems resp) = (j, jerr) ->
  j_id j = Value newid ->
  newid <> "" ->
  exists st1 d1,
    Upload remote decodeItem p a st = Some (jerr, st1) /\
    net st1 = (net st ++ [req1])%list /\
    heap st1 !! p = Some d1 /\
    ID d1 = newid /\ data d1 = Some s /\ hasChanges d1 = hasChanges d /\
    exists r2 st2,
      Upload remote decodeItem p a st1 = Some (r2, st2) /\
      net st2 = (net st ++ [req1; req2])%list.
Proof.
  intros Hp Hd Hid Hpar req1 req2 Hrem Hdec Hj Hnew.
  set (d1 := Json.unmarshal_into j d).
  set (st1 := mkState (<[p := d1]> (heap st)) (net st ++ [req1])%list (clock st)).
  assert (H1 : Upload remote decodeItem p a st = Some (jerr, st1)).
  { unfold Upload. run_go. rewrite Hp, Hid. simpl. rewrite Hpar. simpl.
    rewrite Hd. simpl. unfold Put, http. fold req1. rewrite Hrem.
    rewrite Hdec. simpl. rewrite Hp. reflexivity. }
  assert (Hid1 : ID d1 = newid) by (unfold d1; simpl; rewrite Hj; reflexivity).
  assert (Hd1 : data d1 = Some s) by exact Hd.
  assert (Hf1 : hasChanges d1 = hasChanges d) by reflexivity.
  exists st1, d1. split; [exact H1|]. split; [reflexivity|].
  split; [apply lookup_insert_eq|]. split; [exact Hid1|].
  split; [exact Hd1|]. split; [exact Hf1|].
  assert (Hne : String.eqb (ID d1) "" = false)
    by (apply String.eqb_neq; rewrite Hid1; exact Hnew).
  clearbody d1.
  unfold Upload. run_go. rewrite lookup_insert_eq. rewrite Hne. simpl.
  rewrite Hd1. simpl.
  unfold Put, http. simpl. rewrite Hid1. fold req2.
  destruct (remote ((net st ++ [req1])%list) req2) as [resp2 [e2|]]; simpl.
  - eexists _, _. split; [reflexivity|]. simpl.
    rewrite <- app_assoc. reflexivity.
  - destruct (decodeItem (elems resp2)) as [j2 jerr2]. simpl.
    rewrite lookup_insert_eq.
    eexists _, _. split; [reflexivity|]. simpl.
    rewrite <- app_assoc. reflexivity.
Qed.

End Content.

(* ===================================================================== *)
(** ** More on [Mode], [setParent] and [NewDriveItem] *)
(* ===================================================================== *)

Section ModeAndPaths.

Context {Auth : Type}.
Implicit Type d : DriveItem Auth.
Implicit Type st : State Auth.
Implicit Type p : loc.

Local Open Scope string_scope.

(** computing the mode a second time changes nothing *)
Lemma Mode_item_idem d :
  Mode_item (snd (Mode_item d)) = (fst (Mode_item d), snd (Mode_item d)).
Proof.
  unfold Mode_item.
  destruct (Z.eqb (mode d) 0) eqn:E; [destruct (FileAPI d)|]; simpl;
    [reflexivity|reflexivity|rewrite E; reflexivity].
Qed.

Lemma Mode_item_nonzero d : fst (Mode_item d) <> 0.
Proof.
  unfold Mode_item.
  destruct (Z.eqb_spec (mode d) 0); [destruct (FileAPI d)|]; simpl;
    [discriminate|discriminate|assumption].
Qed.

Lemma IsDir_Mode_item d : IsDir (snd (Mode_item d)) = IsDir d.
Proof. unfold IsDir. rewrite Mode_item_idem. reflexivity. Qed.

(** X11: [Mode] initialises the mode once.  It never returns 0; after the
    first call the mode is stored in the item, and a second call returns
    the same mode and leaves the world as it is; whether the item is a
    directory is not changed by it. *)
Theorem Mode_caches p d st :
  heap st !! p = Some d ->
  exists m st1 d1,
    Mode p st = Some (m, st1) /\
    m <> 0 /\
    heap st1 !! p = Some d1 /\ mode d1 = m /\ IsDir d1 = IsDir d /\
    Mode p st1 = Some (m, st1).
Proof.
  intros Hp.
  exists (fst (Mode_item d)),
    (mkState (<[p := snd (Mode_item d)]> (heap st)) (net st) (clock st)),
    (snd (Mode_item d)).
  split; [|split; [|split; [|split; [|split]]]].
  - unfold Mode. run_go. rewrite Hp.
    destruct (Mode_item d) as [m d1]. simpl. rewrite Hp. reflexivity.
  - apply Mode_item_nonzero.
  - apply lookup_insert_eq.
  - unfold Mode_item.
    destruct (Z.eqb_spec (mode d) 0); [destruct (FileAPI d)|]; reflexivity.
  - apply IsDir_Mode_item.
  - unfold Mode. run_go. rewrite lookup_insert_eq, Mode_item_idem. simpl.
    rewrite lookup_insert_eq, insert_insert_eq. reflexivity.
Qed.

(** X12: an item fresh from the decoder is a directory exactly when its
    descriptor has no file facet (the folder facet is not looked at); its
    mode is then [S_IFDIR|0755], and [S_IFREG|0644] otherwise. *)
Theorem Mode_inference (j : ItemJSON) :
  let d : DriveItem Auth := Json.unmarshal_new j in
  (IsDir d = true <-> forall v, j_file j <> Value v) /\
  fst (Mode_item d) = (if IsDir d then 16877 else 33188).
Proof.
  unfold IsDir, Mode_item, Json.unmarshal_new, Json.unmarshal_into. simpl.
  destruct (j_file j) as [| |v]; simpl.
  - split; [|reflexivity]. split; [discriminate|reflexivity].
  - split; [|reflexivity]. split; [discriminate|reflexivity].
  - split; [|reflexivity]. split; [discriminate|].
    intros H. exfalso. exact (H v eq_refl).
Qed.

(** X13: after [setParent] the item is below its new parent: its path is
    the path of the parent, a slash and its own name (for a name and a
    parent path that do not spell the prefix "/drive/root:" together),
    and its parent descriptor holds the identifier of the parent and a
    pointer to it. *)
Theorem setParent_Path p newParent d n pp st :
  heap st !! p = Some d ->
  heap st !! newParent = Some n ->
  Path n = Some pp ->
  pp <> "" \/ Name d <> "root" ->
  (forall rest, pp +:+ "/" +:+ Name d <> "/drive/root:" +:+ rest) ->
  exists st' d',
    setParent p newParent st = Some (tt, st') /\
    heap st' !! p = Some d' /\
    Parent d' = Some (mkParent (ID n) pp (Some newParent)) /\
    Path d' = Some (pp +:+ "/" +:+ Name d) /\
    net st' = net st.
Proof.
  intros Hp Hn Hpp Hroot Hpre.
  eexists _, _. split; [|split; [|split; [|split]]].
  - unfold setParent. run_go. rewrite Hn. simpl. rewrite Hpp. simpl.
    rewrite Hp. simpl. rewrite Hp. reflexivity.
  - simpl. apply lookup_insert_eq.
  - reflexivity.
  - unfold Path. simpl.
    assert (E : String.eqb pp "" && String.eqb (Name d) "root" = false).
    { destruct Hroot as [H|H];
        apply String.eqb_neq in H; rewrite H;
        [reflexivity|apply andb_false_r]. }
    rewrite E. rewrite TrimPrefix_no_prefix by exact Hpre. reflexivity.
  - reflexivity.
Qed.

(** X14: an item made by [NewDriveItem] below a parent that the service
    described (its cached parent path starts with "/drive/root:") has the
    path of the parent, a slash and its name. *)
Theorem NewDriveItem_Path name mode_ parent par pp q st :
  heap st !! parent = Some par ->
  Parent par = Some pp ->
  ParentPath pp = "/drive/root:" +:+ q ->
  exists c st' d ppath,
    NewDriveItem name mode_ parent st = Some (c, st') /\
    heap st' !! c = Some d /\
    Path par = Some ppath /\
    Path d = Some (ppath +:+ "/" +:+ name) /\
    IsDir d = (Z.land mode_ S_IFDIR >? 0) || (Z.eqb mode_ 0).
Proof.
  intros Hpar Hpp Hq.
  pose proof (NewDriveItem_returns name mode_ parent par pp st Hpar Hpp)
    as Hnew. simpl in Hnew.
  match type of Hnew with
  | _ = Some (?c0, mkState (<[_ := ?d0]> _) _ _) =>
      set (c := c0) in *; set (d := d0) in *
  end.
  destruct (Path_child_of_parent d par
              (mkParent (ID par) (ParentPath pp +:+ "/" +:+ Name par)
                        (Some parent)) pp q Hpp Hq eq_refl eq_refl)
    as (ppath & Hppath & Hd).
  eexists c, _, d, ppath. split; [exact Hnew|].
  split; [apply lookup_insert_eq|]. split; [exact Hppath|].
  split; [exact Hd|].
  unfold IsDir, Mode_item, d. simpl.
  destruct (Z.eqb_spec mode_ 0) as [->|]; simpl; [reflexivity|].
  rewrite orb_false_r. reflexivity.
Qed.

(** X15: below the root, whose cached parent path is empty and whose name
    is "root", [NewDriveItem] stores "/root" as the parent path, so the
    new item has the path "/root/" and its name, while the path of the
    root itself is "/". *)
Theorem NewDriveItem_below_root name mode_ parent par pp st :
  heap st !! parent = Some par ->
  Parent par = Some pp ->
  ParentPath pp = "" ->
  Name par = "root" ->
  exists c st' d,
    NewDriveItem name mode_ parent st = Some (c, st') /\
    heap st' !! c = Some d /\
    Path par = Some "/" /\
    Path d = Some ("/root/" +:+ name).
Proof.
  intros Hpar Hpp Hempty Hname.
  pose proof (NewDriveItem_returns name mode_ parent par pp st Hpar Hpp)
    as Hnew. simpl in Hnew.
  eexists _, _, _. split; [exact Hnew|].
  split; [apply lookup_insert_eq|]. split.
  - unfold Path. rewrite Hpp. simpl. rewrite Hempty, Hname. reflexivity.
  - unfold Path. simpl. rewrite Hempty, Hname. reflexivity.
Qed.

End ModeAndPaths.


(* ===================================================================== *)
(** ** [getRoot] and [Flush] *)
(* ===================================================================== *)

Section RootAndFlush.

Context {Auth : Type}.
Implicit Type d : DriveItem Auth.
Implicit Type h : gmap loc (DriveItem Auth).
Implicit Type st : State Auth.

Local Open Scope string_scope.

(** The loop ends at the first ancestor with an empty parent path, after
    one round more than there are steps to it. *)
Lemma getRoot_from_reaches h q n r :
  reaches_root h q n r ->
  forall rounds, (n < rounds)%nat ->
    getRoot_from rounds h (Some q) = Returns r.
Proof.
  induction 1 as [q d par Hq Hpar Hpath|q d par q' n r Hq Hpar Hpath Hitem _ IH];
    intros rounds Hr; destruct rounds as [|rounds]; try lia; simpl;
    rewrite Hq; simpl; rewrite Hpar; simpl.
  - rewrite Hpath. reflexivity.
  - apply String.eqb_neq in Hpath. rewrite Hpath, Hitem. apply IH. lia.
Qed.

(** X16: [getRoot] returns the first ancestor whose cached parent path is
    empty: when the parent pointers lead there in [n] steps, the loop
    ends within [n+1] rounds and returns that item. *)
Theorem getRoot_finds_root h d par q n r :
  Parent d = Some par ->
  ParentItem par = Some q ->
  reaches_root h q n r ->
  forall rounds, (n < rounds)%nat ->
    getRoot rounds h d = Returns r /\
    exists dr pr, h !! r = Some dr /\ Parent dr = Some pr /\
                  ParentPath pr = "".
Proof.
  intros Hpar Hitem Hreach rounds Hr. split.
  - unfold getRoot. rewrite Hpar, Hitem.
    exact (getRoot_from_reaches h q n r Hreach rounds Hr).
  - clear -Hreach. induction Hreach; eauto.
Qed.

(** [getRoot] of an item whose parent descriptor has no item pointer (the
    root itself, or an item decoded on its own) panics: the loop
    dereferences the nil pointer. *)
Lemma getRoot_nil_parent_panics h d par rounds :
  Parent d = Some par ->
  ParentItem par = None ->
  getRoot (S rounds) h d = Panics.
Proof.
  intros Hpar Hitem. unfold getRoot. rewrite Hpar, Hitem. reflexivity.
Qed.

(** X18: [setParent] accepts the item itself as its new parent.  The
    item is then its own parent, with a parent path that is not empty,
    and the loop of [getRoot] never ends on it, whatever the number of
    rounds. *)
Theorem setParent_self_getRoot_spins p d pp st :
  heap st !! p = Some d ->
  Path d = Some pp ->
  pp <> "" ->
  exists st' d',
    setParent p p st = Some (tt, st') /\
    heap st' !! p = Some d' /\
    forall rounds, getRoot rounds (heap st') d' = Spins.
Proof.
  intros Hp Hpp Hne.
  set (d' := set_Parent (Some (mkParent (ID d) pp (Some p))) d).
  set (st' := mkState (<[p := d']> (heap st)) (net st) (clock st)).
  exists st', d'. split; [|split].
  - unfold setParent. run_go. rewrite Hp. simpl. rewrite Hpp. simpl.
    repeat (rewrite Hp; simpl). reflexivity.
  - apply lookup_insert_eq.
  - intros rounds. unfold getRoot. simpl.
    apply String.eqb_neq in Hne.
    induction rounds as [|rounds IH]; [reflexivity|].
    simpl. rewrite lookup_insert_eq. simpl. rewrite Hne. exact IH.
Qed.

(** X19: [Flush] of an item without local changes returns OK and starts no
    upload, without looking at the tree; [Flush] of an item with local
    changes whose root is found and has credentials returns OK and starts
    one upload, of this item, with the credentials of the root; [Flush] of
    an item with local changes whose parent descriptor has no item pointer
    panics. *)
Theorem Flush_uploads_when_dirty h d :
  (hasChanges d = false ->
   forall rounds, Flush rounds h d = Returns (OK, None)) /\
  (hasChanges d = true ->
   forall par q n r dr a,
     Parent d = Some par -> ParentItem par = Some q ->
     reaches_root h q n r ->
     h !! r = Some dr -> auth dr = Some a ->
     forall rounds, (n < rounds)%nat ->
       Flush rounds h d = Returns (OK, Some (d, a))) /\
  (hasChanges d = true ->
   forall par rounds,
     Parent d = Some par -> ParentItem par = None ->
     Flush (S rounds) h d = Panics).
Proof.
  split; [|split].
  - intros Hc rounds. unfold Flush. rewrite Hc. reflexivity.
  - intros Hc par q n r dr a Hpar Hitem Hreach Hr Ha rounds Hlt.
    unfold Flush. rewrite Hc. unfold getRoot. rewrite Hpar, Hitem.
    rewrite (getRoot_from_reaches h q n r Hreach rounds Hlt).
    rewrite Hr. simpl. rewrite Ha. reflexivity.
  - intros Hc par rounds Hpar Hitem. unfold Flush. rewrite Hc.
    rewrite (getRoot_nil_parent_panics h d par rounds Hpar Hitem).
    reflexivity.
Qed.

End RootAndFlush.

(* ===================================================================== *)
(** ** [GetAttr] and [Utimens] of an item *)
(* ===================================================================== *)

Section ItemAttr.

Context {Auth : Type}.
Variable Getuid Getgid : Z.
Implicit Type d : DriveItem Auth.
Implicit Type h : gmap loc (DriveItem Auth).
Implicit Type st : State Auth.

(** X20: [GetAttr] needs the modification time: without one it panics.
    With one, and a link count, it returns OK and writes the size (4096
    for a directory, the size of the item for a file), the link count (1
    for a file), the one modification time as access, modification and
    change time, the mode, whose directory bit tells directories from
    files, and the owner; the other attributes are left as they were. *)
Theorem GetAttr_fields h d out :
  (ModifyTime d = None -> GetAttr Getuid Getgid h d out = None) /\
  (forall t n,
     ModifyTime d = Some t -> NLink h d = Some n ->
     exists attr,
       GetAttr Getuid Getgid h d out = Some (attr, OK) /\
       attr_Size attr = (if IsDir d then 4096 else Size d) /\
       attr_Nlink attr = n /\ (IsDir d = false -> n = 1) /\
       attr_Atime attr = GoInt.uint64 t /\
       attr_Mtime attr = GoInt.uint64 t /\
       attr_Ctime attr = GoInt.uint64 t /\
       (Z.land (attr_Mode attr) S_IFDIR >? 0) = IsDir d /\
       attr_Owner attr = mkOwner (GoInt.uint32 Getuid) (GoInt.uint32 Getgid) /\
       attr_Ino attr = attr_Ino out /\ attr_Blocks attr = attr_Blocks out /\
       attr_Rdev attr = attr_Rdev out /\
       attr_Blksize attr = attr_Blksize out).
Proof.
  split.
  - intros Hm. unfold GetAttr, MTime. rewrite Hm.
    destruct (NLink h d); reflexivity.
  - intros t n Hm Hn. eexists. split.
    + unfold GetAttr, MTime. rewrite Hn, Hm. reflexivity.
    + simpl. repeat split; try reflexivity.
      intros Hf. unfold NLink in Hn. rewrite Hf in Hn. congruence.
Qed.

(** X21: [Utimens] stores the modification time it is given and ignores
    the access time; it does not mark the item as changed and does not
    touch the buffer.  Given a nil modification time it stores nil, after
    which [GetAttr] of the item panics. *)
Theorem Utimens_sets_mtime p d atime mtime st :
  heap st !! p = Some d ->
  exists st' d',
    Utimens p atime mtime st = Some (OK, st') /\
    heap st' !! p = Some d' /\
    MTime d' = (GoInt.uint64 <$> mtime) /\
    hasChanges d' = hasChanges d /\ data d' = data d /\
    net st' = net st /\
    (mtime = None -> forall h out, GetAttr Getuid Getgid h d' out = None).
Proof.
  intros Hp. eexists _, _. split; [|split; [|split; [|split; [|split; [|split]]]]].
  - unfold Utimens. run_go. rewrite Hp. simpl. rewrite Hp. reflexivity.
  - simpl. apply lookup_insert_eq.
  - unfold MTime. simpl. destruct mtime; reflexivity.
  - reflexivity.
  - reflexivity.
  - reflexivity.
  - intros -> h out. unfold GetAttr, MTime. simpl.
    match goal with |- context [NLink h ?x] => destruct (NLink h x) end;
      reflexivity.
Qed.

End ItemAttr.


(* ===================================================================== *)
(** ** More on the path operations of [FuseFs] *)
(* ===================================================================== *)

Lemma ignore_in_In (l : list string) (path : string) :
  ignore_in l path = true <-> In path l.
Proof.
  induction l as [|x l IH]; simpl; [split; [discriminate|tauto]|].
  destruct (String.eqb_spec path x) as [->|Hne].
  - split; auto.
  - rewrite IH. split; [auto|]. intros [H|H]; [congruence|exact H].
Qed.

Section OpenDirLoop.

Context {Auth : Type}.
Implicit Type d : DriveItem Auth.
Implicit Type h : gmap loc (DriveItem Auth).
Implicit Type st : State Auth.

Lemma Mode_run p d st :
  heap st !! p = Some d ->
  Mode p st = Some (fst (Mode_item d),
                    mkState (<[p := snd (Mode_item d)]> (heap st)) (net st)
                            (clock st)).
Proof.
  intros Hp. unfold Mode. run_go. rewrite Hp.
  destruct (Mode_item d) as [m d1]. simpl. rewrite Hp. reflexivity.
Qed.

Lemma moded_refl h : moded h h.
Proof. intros q. destruct (h !! q); auto. Qed.

Lemma moded_trans h1 h2 h3 : moded h1 h2 -> moded h2 h3 -> moded h1 h3.
Proof.
  intros H12 H23 q. specialize (H12 q). specialize (H23 q).
  destruct (h1 !! q) as [d|].
  - destruct H12 as [E|E]; rewrite E in H23.
    + exact H23.
    + destruct H23 as [E'|E']; rewrite E'; [auto|].
      right. rewrite Mode_item_idem. reflexivity.
  - rewrite H12 in H23. exact H23.
Qed.

Lemma moded_insert h q d :
  h !! q = Some d -> moded h (<[q := snd (Mode_item d)]> h).
Proof.
  intros Hq q'. destruct (decide (q = q')) as [<-|Hne].
  - rewrite Hq, lookup_insert_eq. auto.
  - rewrite lookup_insert_ne by exact Hne. destruct (h !! q'); auto.
Qed.

Lemma entry_of_moded h h' q e : moded h h' -> entry_of h q e -> entry_of h' q e.
Proof.
  intros Hm (d & Hq & ->). specialize (Hm q). rewrite Hq in Hm.
  destruct Hm as [E|E].
  - exists d. split; [exact E|reflexivity].
  - exists (snd (Mode_item d)). split; [exact E|].
    rewrite Mode_item_idem. simpl.
    unfold Mode_item.
    destruct (Z.eqb (mode d) 0); [destruct (FileAPI d)|]; reflexivity.
Qed.

Lemma entry_of_moded_back h h' q e :
  moded h h' -> entry_of h' q e -> entry_of h q e.
Proof.
  intros Hm (d' & Hq' & ->). specialize (Hm q).
  destruct (h !! q) as [d|] eqn:Hq; [|congruence].
  exists d. split; [exact Hq|].
  destruct Hm as [E|E]; rewrite E in Hq'; injection Hq' as <-;
    [reflexivity|].
  rewrite Mode_item_idem. simpl.
  unfold Mode_item.
  destruct (Z.eqb (mode d) 0); [destruct (FileAPI d)|]; reflexivity.
Qed.

(** The loop of [OpenDir] appends one entry for each child, made of its
    name and its mode, and stores the mode in the child. *)
Lemma OpenDir_loop_spec vs :
  forall st c,
    Forall (fun q => is_Some (heap st !! q)) vs ->
    exists entries st',
      OpenDir_loop vs c st = Some (c ++ entries, st') /\
      Forall2 (entry_of (heap st)) vs entries /\
      moded (heap st) (heap st') /\
      net st' = net st /\
      Forall (fun q => exists d', heap st' !! q = Some d' /\ mode d' <> 0) vs.
Proof.
  induction vs as [|q vs IH]; intros st c Hv.
  - exists [], st. simpl. rewrite app_nil_r.
    repeat split; [constructor|apply moded_refl|constructor].
  - apply Forall_cons in Hv as [[d Hq] Hv].
    set (st1 := mkState (<[q := snd (Mode_item d)]> (heap st)) (net st)
                        (clock st)).
    assert (Hm1 : moded (heap st) (heap st1)) by exact (moded_insert _ _ _ Hq).
    destruct (IH st1 (c ++ [mkDirEntry (Name d) (fst (Mode_item d))]))
      as (entries & st' & Hrun & Hent & Hm & Hnet & Hmodes).
    { eapply Forall_impl; [exact Hv|]. intros q' [d' Hq']. simpl.
      specialize (Hm1 q'). rewrite Hq' in Hm1. destruct Hm1 as [E|E]; eauto. }
    exists (mkDirEntry (Name d) (fst (Mode_item d)) :: entries), st'.
    split; [|split; [|split; [|split]]].
    + simpl. unfold mbind at 1, M_bind at 1, load. rewrite Hq.
      unfold mbind, M_bind. rewrite (Mode_run q d st Hq). fold st1.
      rewrite Hrun, <- app_assoc. reflexivity.
    + constructor; [exists d; split; [exact Hq|reflexivity]|].
      eapply Forall2_impl; [exact Hent|]. intros q' e.
      apply entry_of_moded_back. exact Hm1.
    + exact (moded_trans _ _ _ Hm1 Hm).
    + rewrite Hnet. reflexivity.
    + constructor; [|exact Hmodes].
      specialize (Hm q). simpl in Hm. rewrite lookup_insert_eq in Hm.
      destruct Hm as [E|E]; eexists; (split; [exact E|]).
      * pose proof (Mode_item_nonzero d) as Hnz. unfold Mode_item in *.
        destruct (Z.eqb_spec (mode d) 0); [destruct (FileAPI d)|]; exact Hnz.
      * rewrite Mode_item_idem. simpl.
        pose proof (Mode_item_nonzero d) as Hnz. unfold Mode_item in *.
        destruct (Z.eqb_spec (mode d) 0); [destruct (FileAPI d)|]; exact Hnz.
Qed.

End OpenDirLoop.

Section FuseFsMore.

Context {Auth : Type}.
Variable remote :
  list (Request Auth) -> Request Auth -> slice * option error.
Variable ChildrenPath : string -> string.
Variable decodeChildren : list byte -> list (option ItemJSON).
Variable GetItem : string -> Auth -> M Auth (option loc * option error).
Variable marshalNewFolder : string -> list byte.
Variable GetChildrenOf :
  string -> Auth -> M Auth (option (gmap string loc) * option error).
Variable Getuid Getgid : Z.
Variable range_order : gmap string loc -> list (string * loc).

Implicit Type d : DriveItem Auth.
Implicit Type st : State Auth.
Implicit Type fs : FuseFs Auth.

Local Open Scope string_scope.

(** X22: for a name that, with the slash in front, is one of the ignored
    files, [GetAttr] answers "no such entry" at once: whatever the
    resolver would do, it is not called, and the world is untouched. *)
Theorem FuseFs_GetAttr_ignored fs name st :
  In ("/" +:+ name) ignoredFiles ->
  FuseFs_GetAttr GetItem Getuid Getgid fs name st = Some ((None, ENOENT), st).
Proof.
  intros Hin. unfold FuseFs_GetAttr, ignore.
  rewrite (proj2 (ignore_in_In ignoredFiles ("/" +:+ name)) Hin).
  reflexivity.
Qed.

(** X23: a failed lookup is "no such entry" for [GetAttr] and for [Open],
    whatever the flags (a write flag included: the lookup comes first),
    and a failed listing is "no such entry", with no entries, for
    [OpenDir].  None of them sends a request after the failure. *)
Theorem lookup_failure_is_ENOENT fs name st :
  (forall it e st',
     GetItem ("/" +:+ name) (FsAuth fs) st = Some ((it, Some e), st') ->
     (exists st'',
        FuseFs_GetAttr GetItem Getuid Getgid fs name st
          = Some ((None, ENOENT), st'') /\ (st'' = st \/ st'' = st')) /\
     (forall flags,
        Open remote GetItem fs name flags st = Some ((None, ENOENT), st'))) /\
  (forall m e st',
     GetChildrenOf ("/" +:+ name) (FsAuth fs) st = Some ((m, Some e), st') ->
     OpenDir GetChildrenOf range_order fs name st
       = Some (([], ENOENT), st')).
Proof.
  split.
  - intros it e st' H. split.
    + unfold FuseFs_GetAttr. destruct (ignore ("/" +:+ name)).
      * exists st. split; [reflexivity|left; reflexivity].
      * exists st'. split; [|right; reflexivity].
        run_go. rewrite H. reflexivity.
    + intros flags. unfold Open. run_go. rewrite H. reflexivity.
  - intros m e st' H. unfold OpenDir. run_go. rewrite H. reflexivity.
Qed.

(** X24: for a name that is not ignored and that resolves to an item with
    a modification time, [GetAttr] of the file system returns OK with the
    size (4096 for a directory), the three times, the mode and the owner.
    It reports no link count (0, also for a directory) and, unlike the
    other readers, it stores the mode it computed in the item. *)
Theorem FuseFs_GetAttr_resolved fs name st p d t st' :
  ~ In ("/" +:+ name) ignoredFiles ->
  GetItem ("/" +:+ name) (FsAuth fs) st = Some ((Some p, None), st') ->
  heap st' !! p = Some d ->
  ModifyTime d = Some t ->
  exists attr st'' d'',
    FuseFs_GetAttr GetItem Getuid Getgid fs name st
      = Some ((Some attr, OK), st'') /\
    attr_Size attr = (if IsDir d then 4096 else Size d) /\
    attr_Atime attr = GoInt.uint64 t /\
    attr_Mtime attr = GoInt.uint64 t /\
    attr_Ctime attr = GoInt.uint64 t /\
    (Z.land (attr_Mode attr) S_IFDIR >? 0) = IsDir d /\
    attr_Nlink attr = 0 /\
    heap st'' !! p = Some d'' /\ mode d'' = attr_Mode attr /\
    mode d'' <> 0 /\ net st'' = net st'.
Proof.
  intros Hnot Hres Hp Ht.
  assert (Hign : ignore ("/" +:+ name) = false).
  { unfold ignore. apply not_true_is_false. intros H. apply Hnot.
    apply ignore_in_In. exact H. }
  eexists _, _, _. split; [|split; [|split; [|split; [|split; [|split; [|split; [|split; [|split; [|split]]]]]]]]].
  - unfold FuseFs_GetAttr. rewrite Hign.
    unfold mbind at 1, M_bind at 1. rewrite Hres. simpl.
    unfold mbind at 1, M_bind at 1, lift.
    unfold mbind at 1, M_bind at 1, load. rewrite Hp.
    unfold MTime. rewrite Ht. simpl.
    unfold mbind at 1, M_bind at 1. unfold mbind at 1, M_bind at 1.
    unfold mbind at 1, M_bind at 1. unfold mbind at 1, M_bind at 1.
    rewrite (Mode_run p d st' Hp). reflexivity.
  - reflexivity.
  - reflexivity.
  - reflexivity.
  - reflexivity.
  - reflexivity.
  - reflexivity.
  - simpl. apply lookup_insert_eq.
  - simpl. unfold Mode_item.
    destruct (Z.eqb_spec (mode d) 0); [destruct (FileAPI d)|]; reflexivity.
  - pose proof (Mode_item_nonzero d) as Hnz. unfold Mode_item in *.
    destruct (Z.eqb_spec (mode d) 0); [destruct (FileAPI d)|]; exact Hnz.
  - reflexivity.
Qed.

(** X25: when the listing of the directory succeeds, [OpenDir] returns OK
    with exactly one entry for each child of the map, holding the name and
    the mode of that child, in the order in which the map is visited,
    whichever that is, and sends no request of its own; afterwards every
    listed child has its mode stored. *)
Theorem OpenDir_entries fs name st m st1 :
  range_order m ≡ₚ map_to_list m ->
  GetChildrenOf ("/" +:+ name) (FsAuth fs) st = Some ((Some m, None), st1) ->
  (forall key q, m !! key = Some q -> is_Some (heap st1 !! q)) ->
  exists entries st',
    OpenDir GetChildrenOf range_order fs name st
      = Some ((entries, OK), st') /\
    Forall2 (entry_of (heap st1)) (range_order m).*2 entries /\
    length entries = size m /\
    net st' = net st1 /\
    (forall key q, m !! key = Some q ->
       exists d', heap st' !! q = Some d' /\ mode d' <> 0).
Proof.
  intros Hperm Hres Hvalid.
  destruct (OpenDir_loop_spec (range_order m).*2 st1 [])
    as (entries & st' & Hrun & Hent & _ & Hnet & Hmodes).
  { apply Forall_forall. intros q Hq.
    apply list_elem_of_fmap in Hq as [[key q'] [-> Hin]].
    rewrite Hperm in Hin.
    apply elem_of_map_to_list in Hin. exact (Hvalid key q' Hin). }
  exists entries, st'. split; [|split; [|split; [|split]]].
  - unfold OpenDir. run_go. rewrite Hres. simpl.
    unfold mbind, M_bind. rewrite Hrun. reflexivity.
  - exact Hent.
  - rewrite <- (Forall2_length _ _ _ Hent), length_fmap, Hperm.
    apply length_map_to_list.
  - exact Hnet.
  - intros key q Hq. rewrite Forall_forall in Hmodes. apply Hmodes.
    apply list_elem_of_fmap. exists (key, q). split; [reflexivity|].
    rewrite Hperm. apply elem_of_map_to_list. exact Hq.
Qed.

(** X26: [Open] with any of the write flags is refused with "operation not
    permitted" once the name resolves, even to a nil item: no content is
    requested. *)
Theorem Open_write_is_EPERM fs name flags st it st' :
  GetItem ("/" +:+ name) (FsAuth fs) st = Some ((it, None), st') ->
  Z.land flags O_ANYWRITE <> 0 ->
  Open remote GetItem fs name flags st = Some ((None, EPERM), st').
Proof.
  intros Hres Hfl. unfold Open. run_go. rewrite Hres. simpl.
  apply Z.eqb_neq in Hfl. rewrite Hfl. reflexivity.
Qed.

(** X27: [Open] without write flags requests the content of the item by
    its identifier, once.  It returns the bytes received with OK, or "no
    such entry" when the request fails; the items, and so the buffer of
    the item opened, stay as the resolver left them. *)
Theorem Open_read_fetches fs name flags st p d st' :
  GetItem ("/" +:+ name) (FsAuth fs) st = Some ((Some p, None), st') ->
  heap st' !! p = Some d ->
  Z.land flags O_ANYWRITE = 0 ->
  let req := ReqGet ("/me/drive/items/" +:+ ID d +:+ "/content") (FsAuth fs) in
  exists st'',
    Open remote GetItem fs name flags st
      = Some (match remote (net st') req with
              | (body, None) => (Some (elems body), OK)
              | (_, Some _) => (None, ENOENT)
              end, st'') /\
    heap st'' = heap st' /\ net st'' = (net st' ++ [req])%list.
Proof.
  intros Hres Hp Hfl req. exists (sent req st'). split; [|split; reflexivity].
  unfold Open. run_go. rewrite Hres. simpl. rewrite Hfl. simpl. rewrite Hp.
  unfold http. fold req.
  destruct (remote (net st') req) as [body [e|]]; reflexivity.
Qed.

(** X28: [Mkdir] tells the service and nobody else: when it returns, the
    items are as before, so a directory whose children are cached still
    lists its old children, the new folder not among them, and no
    listing request is sent for it. *)
Theorem Mkdir_leaves_cache fs name mode_ st status st' :
  Mkdir remote ChildrenPath marshalNewFolder fs name mode_ st
    = Some (status, st') ->
  heap st' = heap st /\
  (exists req, net st' = (net st ++ [req])%list) /\
  forall q dq a, heap st !! q = Some dq -> children dq <> None ->
    GetChildren remote ChildrenPath decodeChildren q a st'
      = Some ((children dq, None), st').
Proof.
  intros H. unfold Mkdir in H.
  unfold mbind, M_bind, lift, Post, http in H.
  destruct (Mkdir_split name) as [[parent child]|]; [|discriminate H].
  simpl in H.
  match type of H with
  | context [remote (net st) ?r] =>
      destruct (remote (net st) r) as [resp [e|]] eqn:Hr
  end; injection H as <- <-;
    (split; [reflexivity|]; split; [eexists; reflexivity|];
     intros q dq a Hq Hc;
     apply GetChildren_no_fetch; [exact Hq|right; exact Hc]).
Qed.

(** X29: [Rmdir] of a name that resolves sends one delete request, keyed
    by the identifier of the item, and returns OK when it succeeds and the
    remote-I/O status when it fails.  The items stay as the resolver left
    them: the item removed is still in the heap, and a directory whose
    children are cached still lists it. *)
Theorem Rmdir_leaves_cache fs name st p d st' :
  GetItem ("/" +:+ name) (FsAuth fs) st = Some ((Some p, None), st') ->
  heap st' !! p = Some d ->
  let req := ReqDelete ("/me/drive/items/" +:+ ID d) (FsAuth fs) in
  exists st'',
    Rmdir remote GetItem fs name st
      = Some (match snd (remote (net st') req) with
              | Some _ => EREMOTEIO
              | None => OK
              end, st'') /\
    net st'' = (net st' ++ [req])%list /\
    heap st'' !! p = Some d /\
    forall q dq a, heap st' !! q = Some dq -> children dq <> None ->
      GetChildren remote ChildrenPath decodeChildren q a st''
        = Some ((children dq, None), st'').
Proof.
  intros Hres Hp req. exists (sent req st').
  split; [exact (Rmdir_resolved remote GetItem fs name st p d st' Hres Hp)|].
  split; [reflexivity|]. split; [exact Hp|].
  intros q dq a Hq Hc.
  apply GetChildren_no_fetch; [exact Hq|right; exact Hc].
Qed.

End FuseFsMore.


(* ===================================================================== *)
(** ** More on [GetChildren]: the children it registers *)
(* ===================================================================== *)

Section Listing.

Context {Auth : Type}.
Variable remote :
  list (Request Auth) -> Request Auth -> slice * option error.
Variable ChildrenPath : string -> string.
Variable decodeChildren : list byte -> list (option ItemJSON).

Implicit Type d : DriveItem Auth.
Implicit Type st : State Auth.
Implicit Type p : loc.

(** The loop over a well-formed listing registers every item listed under
    its name, as a new item that points back to the directory. *)
Lemma fill_children_linked p fetched :
  Forall listed fetched ->
  forall st d m,
    heap st !! p = Some d ->
    children d = Some m ->
    linked (heap st) p m ->
    exists st' m',
      fill_children p fetched st = Some (tt, st') /\
      heap st' !! p = Some (set_children (Some m') d) /\
      linked (heap st') p m' /\
      (forall name, is_Some (m !! name) -> is_Some (m' !! name)) /\
      (forall j, Some j ∈ fetched ->
         is_Some (m' !! Json.plain (j_name j) EmptyString)).
Proof.
  induction 1 as [|child rest Hc _ IH]; intros st d m Hp Hm Hlinked.
  - exists st, m. simpl. run_go. split; [reflexivity|].
    split; [rewrite Hp; f_equal; destruct d; simpl in *; subst; reflexivity|].
    split; [exact Hlinked|]. split; [auto|].
    intros j Hj. apply elem_of_nil in Hj. destruct Hj.
  - destruct Hc as (j & pj & -> & Hpj).
    set (q := fresh (dom (heap st))).
    assert (Hq : heap st !! q = None)
      by (apply not_elem_of_dom, is_fresh).
    assert (Hqp : q <> p) by (intros ->; rewrite Hp in Hq; discriminate).
    set (c := set_Parent
                (Some (mkParent (Json.plain (j_parent_id pj) EmptyString)
                                (Json.plain (j_parent_path pj) EmptyString)
                                (Some p)))
                (Json.unmarshal_new (Auth := Auth) j)).
    set (m2 := <[Name c := q]> m).
    set (d2 := set_children (Some m2) d).
    set (st2 := mkState (<[p := d2]> (<[q := c]> (heap st))) (net st)
                        (clock st)).
    destruct (IH st2 d2 m2) as (st' & m' & Hrun & Hp' & Hl & Hmono & Hreg).
    + simpl. apply lookup_insert_eq.
    + reflexivity.
    + intros name q' Hlk. unfold m2 in Hlk.
      destruct (decide (Name c = name)) as [<-|Hne].
      * rewrite lookup_insert_eq in Hlk. injection Hlk as <-.
        split; [exact Hqp|]. eexists c, _. simpl.
        rewrite lookup_insert_ne by congruence.
        rewrite lookup_insert_eq. repeat split; reflexivity.
      * rewrite lookup_insert_ne in Hlk by exact Hne.
        destruct (Hlinked name q' Hlk) as (Hq'p & cc & par & Hcc & Hrest).
        split; [exact Hq'p|]. exists cc, par. simpl.
        rewrite lookup_insert_ne by congruence.
        rewrite lookup_insert_ne by (intros ->; congruence).
        split; assumption.
    + exists st', m'. split; [|split; [|split; [|split]]].
      * simpl. run_go. unfold Json.unmarshal_new, Json.unmarshal_into.
        simpl. rewrite Hpj. simpl. unfold alloc. simpl. fold q.
        rewrite lookup_insert_ne by congruence. rewrite Hp. simpl.
        rewrite Hm. simpl.
        rewrite lookup_insert_ne by congruence. rewrite Hp.
        exact Hrun.
      * rewrite Hp'. reflexivity.
      * exact Hl.
      * intros name Hn. apply Hmono. unfold m2.
        destruct (decide (Name c = name)) as [<-|Hne];
          [rewrite lookup_insert_eq; eauto
          |rewrite lookup_insert_ne by exact Hne; exact Hn].
      * intros j' Hj'. apply elem_of_cons in Hj' as [Hj'|Hj'].
        -- injection Hj' as ->. apply Hmono. unfold m2.
           change (Json.plain (j_name j) EmptyString) with (Name c).
           rewrite lookup_insert_eq. eauto.
        -- exact (Hreg j' Hj').
Qed.

(** X30: a successful listing of well-formed items registers every item
    listed under its name; each child in the map is a new item with that
    name, without content and without children map, and points back to
    the directory.  When the directory is the root (its cached parent
    path is empty), [getRoot] of every child returns it at once. *)
Theorem GetChildren_links_children p d a st path body :
  heap st !! p = Some d ->
  IsDir d = true -> children d = None -> Path d = Some path ->
  remote (net st) (ReqGet (ChildrenPath path) a) = (body, None) ->
  Forall listed (decodeChildren (elems body)) ->
  exists m st',
    GetChildren remote ChildrenPath decodeChildren p a st
      = Some ((Some m, None), st') /\
    linked (heap st') p m /\
    (forall j, Some j ∈ decodeChildren (elems body) ->
       is_Some (m !! Json.plain (j_name j) EmptyString)) /\
    (forall par, Parent d = Some par -> ParentPath par = EmptyString ->
     forall name q c, m !! name = Some q -> heap st' !! q = Some c ->
     forall rounds, getRoot (S rounds) (heap st') c = Returns p).
Proof.
  intros Hp Hdir Hnil Hpath Hrem Hwf.
  set (d1 := set_children (Some ∅) d).
  set (st1 := mkState (<[p := d1]> (heap st))
                      (net st ++ [ReqGet (ChildrenPath path) a]) (clock st)).
  destruct (fill_children_linked p _ Hwf st1 d1 ∅)
    as (st' & m & Hrun & Hp' & Hl & _ & Hreg).
  - simpl. apply lookup_insert_eq.
  - reflexivity.
  - intros name q Hlk. rewrite lookup_empty in Hlk. discriminate.
  - exists m, st'. split; [|split; [|split]].
    + unfold GetChildren. run_go. rewrite Hp, Hdir, Hnil. simpl.
      rewrite Hpath. unfold Get, http. rewrite Hrem. simpl. rewrite Hp.
      fold d1. fold st1. rewrite Hrun, Hp'. reflexivity.
    + exact Hl.
    + exact Hreg.
    + intros par Hpar Hempty name q c Hq Hc rounds.
      destruct (Hl name q Hq) as (_ & c' & cpar & Hc' & _ & Hcpar & Hitem & _).
      rewrite Hc in Hc'. injection Hc' as <-.
      unfold getRoot. rewrite Hcpar, Hitem. simpl.
      rewrite Hp'. simpl. rewrite Hpar. simpl. rewrite Hempty. reflexivity.
Qed.

End Listing.


(* ===================================================================== *)
(** ** Worked examples, continued *)
(* ===================================================================== *)

(** "LO" written at offset 3 of "HELLO" is lost to a fetch. *)
Lemma FetchContent_discards_writes_witness :
  exists r st1 st2 d2,
    Write Ex.double 1%positive Ex.LO 3 Ex.file_world = Some (r, st1) /\
    FetchContent Ex.online 1%positive tt st1 = Some (None, st2) /\
    heap st2 !! 1%positive = Some d2 /\
    data d2 = Some (Slice.of_bytes [x7b; x7d]) /\
    hasChanges d2 = true /\ Size d2 = 5.
Proof.
  destruct (FetchContent_discards_writes Ex.online Ex.double 1%positive
              (Ex.file Ex.HELLO) (Slice.of_bytes Ex.HELLO) Ex.LO 3 tt
              Ex.file_world (Slice.of_bytes [x7b; x7d]) eq_refl eq_refl
              eq_refl)
    as (r & st1 & st2 & d2 & H1 & H2 & H3 & H4 & H5 & H6 & _).
  - vm_compute. split; discriminate.
  - vm_compute. reflexivity.
  - reflexivity.
  - exists r, st1, st2, d2. repeat split; assumption.
Defined.

Lemma FetchContent_failure_keeps_buffer_witness :
  exists st',
    FetchContent Ex.offline 1%positive tt Ex.file_world
      = Some (Some "no route to host"%string, st') /\
    heap st' = heap Ex.file_world.
Proof.
  destruct (FetchContent_failure_keeps_buffer Ex.offline 1%positive
              (Ex.file Ex.HELLO) tt Ex.file_world Slice.nil_slice
              "no route to host" eq_refl eq_refl)
    as (st' & H1 & H2 & _).
  exists st'. split; assumption.
Defined.

Lemma Upload_failure_retry_witness :
  exists r st'',
    Upload Ex.offline Ex.uploaded 1%positive tt
      (sent (ReqPut "/me/drive/items/id-7/content" tt Ex.HELLO) Ex.file_world)
      = Some (r, st'') /\
    length (net st'') = 2%nat.
Proof.
  destruct (Upload_failure_retry Ex.offline Ex.uploaded 1%positive
              (Ex.file Ex.HELLO) (Slice.of_bytes Ex.HELLO) tt Ex.file_world
              Slice.nil_slice "no route to host" eq_refl eq_refl)
    as (_ & _ & r & st'' & H & Hn).
  - discriminate.
  - reflexivity.
  - exists r, st''. split; [exact H|]. rewrite Hn. reflexivity.
Defined.

Lemma Upload_new_then_by_ID_witness :
  exists st1 d1,
    Upload Ex.online Ex.uploaded 1%positive tt Ex.blank_world
      = Some (None, st1) /\
    heap st1 !! 1%positive = Some d1 /\ ID d1 = "id-9"%string /\
    exists r2 st2,
      Upload Ex.online Ex.uploaded 1%positive tt st1 = Some (r2, st2) /\
      net st2 = [ReqPut "/me/drive/items/id-1:/draft:/content" tt [];
                 ReqPut "/me/drive/items/id-9/content" tt []].
Proof.
  destruct (Upload_new_then_by_ID Ex.online Ex.uploaded 1%positive Ex.blank
              Slice.nil_slice
              (mkParent "id-1" "/drive/root:/docs" None) tt Ex.blank_world
              (Slice.of_bytes [x7b; x7d])
              (fst (Ex.uploaded [x7b; x7d])) None "id-9"
              eq_refl eq_refl eq_refl eq_refl eq_refl eq_refl eq_refl)
    as (st1 & d1 & H1 & _ & Hd1 & Hid & _ & _ & r2 & st2 & H2 & Hn).
  - discriminate.
  - exists st1, d1. split; [exact H1|]. split; [exact Hd1|].
    split; [exact Hid|]. exists r2, st2. split; [exact H2|exact Hn].
Defined.

Lemma Mode_caches_witness :
  exists st1,
    Mode 2%positive Ex.tree_world = Some (16877, st1) /\
    Mode 2%positive st1 = Some (16877, st1).
Proof.
  destruct (Mode_caches 2%positive (Ex.dir_item "docs" "id-2") Ex.tree_world
              eq_refl)
    as (m & st1 & d1 & H1 & _ & _ & _ & _ & H2).
  assert (Hm : m = 16877).
  { assert (E : Some (m, st1) = Mode 2%positive Ex.tree_world)
      by (symmetry; exact H1).
    vm_compute in E. injection E as -> _. reflexivity. }
  subst m. exists st1. split; assumption.
Defined.

(** The notes moved into the folder "docs" have the path "/docs/notes". *)
Lemma setParent_Path_witness :
  exists st' d',
    setParent 4%positive 2%positive Ex.tree_world = Some (tt, st') /\
    heap st' !! 4%positive = Some d' /\
    Path d' = Some "/docs/notes"%string.
Proof.
  destruct (setParent_Path 4%positive 2%positive Ex.notes_item
              (Ex.dir_item "docs" "id-2") "/docs" Ex.tree_world
              eq_refl eq_refl eq_refl)
    as (st' & d' & H1 & H2 & _ & H3 & _).
  - left. discriminate.
  - intros rest H. vm_compute in H. discriminate H.
  - exists st', d'. repeat split; assumption.
Defined.

(** A folder made in "/docs" has the path "/docs/new". *)
Lemma NewDriveItem_Path_witness :
  exists c st' d,
    NewDriveItem "new" 16877 2%positive Ex.tree_world = Some (c, st') /\
    heap st' !! c = Some d /\
    Path d = Some "/docs/new"%string /\ IsDir d = true.
Proof.
  destruct (NewDriveItem_Path "new" 16877 2%positive
              (Ex.dir_item "docs" "id-2")
              (mkParent "id-0" "/drive/root:" (Some 1%positive)) ""
              Ex.tree_world eq_refl eq_refl eq_refl)
    as (c & st' & d & ppath & H1 & H2 & H3 & H4 & H5).
  assert (ppath = "/docs"%string) by (vm_compute in H3; congruence).
  subst ppath. exists c, st', d. repeat split; assumption.
Defined.

(** A folder made in the root has the path "/root/new". *)
Lemma NewDriveItem_below_root_witness :
  exists c st' d,
    NewDriveItem "new" 16877 1%positive Ex.root_world = Some (c, st') /\
    heap st' !! c = Some d /\
    Path Ex.root = Some "/"%string /\
    Path d = Some "/root/new"%string.
Proof.
  exact (NewDriveItem_below_root "new" 16877 1%positive Ex.root
           (mkParent "" "" None) Ex.root_world eq_refl eq_refl eq_refl
           eq_refl).
Defined.

Lemma getRoot_finds_root_witness :
  getRoot 1 Ex.tree Ex.notes_item = Returns 1%positive.
Proof.
  refine (proj1 (getRoot_finds_root Ex.tree Ex.notes_item
                   (mkParent "id-0" "/drive/root:" (Some 1%positive))
                   1%positive 0 1%positive eq_refl eq_refl _ 1%nat _)).
  - exact (reaches_here Ex.tree 1%positive Ex.root_listed
             (mkParent "" "" None) eq_refl eq_refl eq_refl).
  - constructor.
Defined.

(** The notes made their own parent: [getRoot] runs for ever. *)
Lemma setParent_self_getRoot_spins_witness :
  exists st' d',
    setParent 4%positive 4%positive Ex.tree_world = Some (tt, st') /\
    heap st' !! 4%positive = Some d' /\
    forall rounds, getRoot rounds (heap st') d' = Spins.
Proof.
  apply (setParent_self_getRoot_spins 4%positive Ex.notes_item "/notes"
           Ex.tree_world eq_refl eq_refl).
  discriminate.
Defined.

Lemma Flush_uploads_when_dirty_witness :
  Flush 0 Ex.tree Ex.notes_item = Returns (OK, None) /\
  Flush 1 Ex.tree Ex.notes_edited = Returns (OK, Some (Ex.notes_edited, tt)).
Proof.
  destruct (Flush_uploads_when_dirty Ex.tree Ex.notes_item) as (H1 & _).
  destruct (Flush_uploads_when_dirty Ex.tree Ex.notes_edited) as (_ & H2 & _).
  split; [exact (H1 eq_refl 0%nat)|].
  refine (H2 eq_refl (mkParent "id-0" "/drive/root:" (Some 1%positive))
             1%positive 0%nat 1%positive Ex.root_listed tt eq_refl eq_refl
             _ eq_refl eq_refl 1%nat _).
  - exact (reaches_here Ex.tree 1%positive Ex.root_listed
             (mkParent "" "" None) eq_refl eq_refl eq_refl).
  - constructor.
Defined.

Lemma GetAttr_fields_witness :
  exists attr,
    GetAttr 1000 1000 Ex.tree Ex.root_listed zero_attr = Some (attr, OK) /\
    attr_Size attr = 4096 /\ attr_Nlink attr = 4.
Proof.
  destruct (GetAttr_fields 1000 1000 Ex.tree Ex.root_listed zero_attr)
    as (_ & H).
  destruct (H 1500000000 4 eq_refl eq_refl)
    as (attr & H1 & H2 & H3 & _).
  exists attr. repeat split; assumption.
Defined.

Lemma Utimens_sets_mtime_witness :
  exists st' d',
    Utimens 4%positive (Some 7) None Ex.tree_world = Some (OK, st') /\
    heap st' !! 4%positive = Some d' /\
    MTime d' = None /\
    GetAttr 1000 1000 (heap st') d' zero_attr = None.
Proof.
  destruct (Utimens_sets_mtime 1000 1000 4%positive Ex.notes_item (Some 7)
              None Ex.tree_world eq_refl)
    as (st' & d' & H1 & H2 & H3 & _ & _ & _ & H4).
  exists st', d'. repeat split; try assumption. exact (H4 eq_refl _ _).
Defined.

Lemma FuseFs_GetAttr_ignored_witness :
  FuseFs_GetAttr Ex.no_lookup 1000 1000 (mkFuseFs tt) ".DS_Store"
    Ex.root_world = Some ((None, ENOENT), Ex.root_world).
Proof.
  apply (FuseFs_GetAttr_ignored Ex.no_lookup 1000 1000 (mkFuseFs tt)
           ".DS_Store" Ex.root_world).
  vm_compute. tauto.
Defined.

Lemma lookup_failure_is_ENOENT_witness :
  Open Ex.online Ex.unresolved (mkFuseFs tt) "missing" 1 Ex.root_world
    = Some ((None, ENOENT), Ex.root_world) /\
  OpenDir Ex.unlisted map_to_list (mkFuseFs tt) "missing" Ex.root_world
    = Some (([], ENOENT), Ex.root_world).
Proof.
  destruct (lookup_failure_is_ENOENT Ex.online Ex.unresolved Ex.unlisted
              1000 1000 map_to_list (mkFuseFs tt) "missing" Ex.root_world)
    as (H1 & H2).
  split.
  - exact (proj2 (H1 None "itemNotFound"%string Ex.root_world eq_refl) 1).
  - exact (H2 None "itemNotFound"%string Ex.root_world eq_refl).
Defined.

Lemma FuseFs_GetAttr_resolved_witness :
  exists attr st'',
    FuseFs_GetAttr Ex.resolve_notes 1000 1000 (mkFuseFs tt) "notes"
      Ex.tree_world = Some ((Some attr, OK), st'') /\
    attr_Size attr = 3 /\ attr_Nlink attr = 0.
Proof.
  destruct (FuseFs_GetAttr_resolved Ex.resolve_notes 1000 1000 (mkFuseFs tt)
              "notes" Ex.tree_world 4%positive Ex.notes_item 1500000000
              Ex.tree_world)
    as (attr & st'' & d'' & H1 & H2 & _ & _ & _ & _ & H3 & _).
  - vm_compute. intuition discriminate.
  - reflexivity.
  - reflexivity.
  - reflexivity.
  - exists attr, st''. repeat split; assumption.
Defined.

Lemma OpenDir_entries_witness :
  exists entries st',
    OpenDir Ex.list_root map_to_list (mkFuseFs tt) "" Ex.tree_world
      = Some ((entries, OK), st') /\
    length entries = 3%nat.
Proof.
  destruct (OpenDir_entries Ex.list_root map_to_list (mkFuseFs tt) ""
              Ex.tree_world Ex.root_children Ex.tree_world
              (reflexivity _) eq_refl)
    as (entries & st' & H1 & _ & H2 & _).
  - apply (bool_decide_unpack
             (map_Forall (fun _ q => is_Some (Ex.tree !! q)) Ex.root_children)).
    vm_compute. exact I.
  - exists entries, st'. split; [exact H1|]. rewrite H2. reflexivity.
Defined.

Lemma Open_write_is_EPERM_witness :
  Open Ex.online Ex.resolve_notes (mkFuseFs tt) "notes" 1 Ex.tree_world
    = Some ((None, EPERM), Ex.tree_world).
Proof.
  apply (Open_write_is_EPERM Ex.online Ex.resolve_notes (mkFuseFs tt) "notes"
           1 Ex.tree_world (Some 4%positive) Ex.tree_world eq_refl).
  discriminate.
Defined.

Lemma Open_read_fetches_witness :
  exists st'',
    Open Ex.online Ex.resolve_notes (mkFuseFs tt) "notes" 0 Ex.tree_world
      = Some ((Some [x7b; x7d], OK), st'') /\
    heap st'' = Ex.tree.
Proof.
  destruct (Open_read_fetches Ex.online Ex.resolve_notes (mkFuseFs tt) "notes"
              0 Ex.tree_world 4%positive Ex.notes_item Ex.tree_world
              eq_refl eq_refl eq_refl)
    as (st'' & H1 & H2 & _).
  exists st''. split; [exact H1|exact H2].
Defined.

(** After "docs/new" is made, the cached root still has its three children. *)
Lemma Mkdir_leaves_cache_witness :
  exists st',
    Mkdir Ex.online Ex.children_url Ex.new_folder_body (mkFuseFs tt)
      "docs/new" 493 Ex.tree_world = Some (OK, st') /\
    GetChildren Ex.online Ex.children_url Ex.listing 1%positive tt st'
      = Some ((Some Ex.root_children, None), st').
Proof.
  assert (H : exists st',
             Mkdir Ex.online Ex.children_url Ex.new_folder_body (mkFuseFs tt)
               "docs/new" 493 Ex.tree_world = Some (OK, st'))
    by (eexists; vm_compute; reflexivity).
  destruct H as (st' & H). exists st'. split; [exact H|].
  destruct (Mkdir_leaves_cache Ex.online Ex.children_url Ex.listing
              Ex.new_folder_body (mkFuseFs tt) "docs/new" 493 Ex.tree_world
              OK st' H) as (_ & _ & H3).
  apply (H3 1%positive Ex.root_listed tt eq_refl). discriminate.
Defined.

(** After the notes are removed, the cached root still lists them. *)
Lemma Rmdir_leaves_cache_witness :
  exists st'',
    Rmdir Ex.online Ex.resolve_notes (mkFuseFs tt) "notes" Ex.tree_world
      = Some (OK, st'') /\
    GetChildren Ex.online Ex.children_url Ex.listing 1%positive tt st''
      = Some ((Some Ex.root_children, None), st'').
Proof.
  destruct (Rmdir_leaves_cache Ex.online Ex.children_url Ex.listing
              Ex.resolve_notes (mkFuseFs tt) "notes" Ex.tree_world
              4%positive Ex.notes_item Ex.tree_world eq_refl eq_refl)
    as (st'' & H1 & _ & _ & H4).
  exists st''. split; [exact H1|].
  apply (H4 1%positive Ex.root_listed tt eq_refl). discriminate.
Defined.

Lemma GetChildren_links_children_witness :
  exists m st',
    GetChildren Ex.online Ex.children_url Ex.listing 1%positive tt
      Ex.root_world = Some ((Some m, None), st') /\
    linked (heap st') 1%positive m /\
    is_Some (m !! "docs"%string).
Proof.
  destruct (GetChildren_links_children Ex.online Ex.children_url Ex.listing
              1%positive Ex.root tt Ex.root_world "/"
              (Slice.of_bytes [x7b; x7d]) eq_refl eq_refl eq_refl eq_refl
              eq_refl)
    as (m & st' & H1 & H2 & H3 & _).
  - repeat constructor; eexists _, _; split; reflexivity.
  - exists m, st'. split; [exact H1|]. split; [exact H2|].
    apply (H3 (Ex.folder_json "docs" "id-2")). apply list_elem_of_here.
Defined.

(** The first listing of the root sends one request, the second none. *)
Lemma GetChildren_fetch_once_witness :
  exists m st',
    GetChildren Ex.online Ex.children_url Ex.listing 1%positive tt
      Ex.root_world = Some ((Some m, None), st') /\
    net st' = [ReqGet (Ex.children_url "/") tt] /\
    GetChildren Ex.online Ex.children_url Ex.listing 1%positive tt st'
      = Some ((Some m, None), st').
Proof.
  apply (GetChildren_fetch_once Ex.online Ex.children_url Ex.listing
           1%positive Ex.root tt Ex.root_world "/"
           (Slice.of_bytes [x7b; x7d]) eq_refl eq_refl eq_refl eq_refl
           eq_refl).
  repeat constructor; eexists _, _; split; reflexivity.
Defined.
